(** * Starlink Direct-to-Cell tracker: the catalog loader, the position
      sampler, the sky-map projection and the compass labels

    The JavaScript of the tracker is embedded function by function: the
    script [app.js], which keeps the Direct-to-Cell records and shows the
    satellites above 25 degrees, and its earlier form, which keeps every
    record and shows the satellites above the horizon.

    - JavaScript numbers are taken as exact: rationals ([Q]) wherever the
      code only adds, divides, compares and rounds; reals ([R]) in the one
      place that calls [Math.cos] and [Math.sin].
    - Strings are ASCII strings (a TLE document is ASCII text).
    - [try]/[catch] is explicit: a computation ends in [Normal v] or in
      [Throw e], and [tryCatch] is the only place a [Throw] is absorbed.
    - The module-level [let] variables of the script form the record
      [World]; [new Date()] reads its field [wallClock].
    - The satellite.js library and the network are collaborators: the first
      is an arbitrary function the sampler is parametrised by, the second
      an arbitrary outcome handed to the loader.
    - Logging ([console.log] and the like) and the HTML written by
      [renderApp] are left out; a call of [renderApp] is recorded by its
      two arguments. *)

From Stdlib Require Import List Bool Arith ZArith QArith Qround Lia Lqa.
From Stdlib Require Import String Ascii Permutation Sorted.
From Stdlib Require Import Reals Lra.
Import ListNotations.

Local Open Scope string_scope.
Local Open Scope list_scope.

(** ** Completions: normal return or a thrown error *)

(** An [Error] object with its message. *)
Record Error : Type := mkError { message : string }.

(** What [throw] hands to a [catch]. JavaScript throws any value: one
    whose properties can be read, taken as an [Error] with the message it
    shows, or [null] or [undefined], of which reading a property throws in
    turn. *)
Inductive Thrown : Type :=
| Obj (error : Error)
| Nullish.

Coercion Obj : Error >-> Thrown.

Inductive completion (A : Type) : Type :=
| Normal (a : A)
| Throw (e : Thrown).

Arguments Normal {A} a.
Arguments Throw {A} e.

Definition bind {A B} (c : completion A) (k : A -> completion B) : completion B :=
  match c with
  | Normal a => k a
  | Throw e => Throw e
  end.

(** [try { body } catch (err) { handler }] *)
Definition tryCatch {A} (body : completion A) (handler : Thrown -> completion A)
  : completion A :=
  match body with
  | Normal a => Normal a
  | Throw e => handler e
  end.

(** [err.message]: a [TypeError] when [err] is [null] or [undefined]. *)
Definition readMessage (err : Thrown) : completion string :=
  match err with
  | Obj error => Normal (message error)
  | Nullish => Throw (mkError "Cannot read properties of null (reading 'message')")
  end.

Declare Scope js_scope.
Delimit Scope js_scope with js.
Notation "x <- c ;; k" := (bind c (fun x => k))
  (at level 61, c at next level, right associativity) : js_scope.

(** ** Strings: the [String.prototype] methods the script calls *)

Module JS.

Local Open Scope nat_scope.

(** White space and line terminators of the ASCII range, as [trim] strips
    them: TAB, LF, VT, FF, CR and SPACE. *)
Definition isWhiteSpace (c : ascii) : bool :=
  let n := nat_of_ascii c in
  (n =? 9) || (n =? 10) || (n =? 11) || (n =? 12) || (n =? 13) || (n =? 32).

Fixpoint trimStart (s : string) : string :=
  match s with
  | EmptyString => EmptyString
  | String c s' => if isWhiteSpace c then trimStart s' else s
  end.

Fixpoint trimEnd (s : string) : string :=
  match s with
  | EmptyString => EmptyString
  | String c s' =>
      match trimEnd s' with
      | EmptyString => if isWhiteSpace c then EmptyString else String c EmptyString
      | t => String c t
      end
  end.

Definition trim (s : string) : string := trimEnd (trimStart s).

(** [s.split(sep)] for a one-character separator: the pieces between the
    separators, so at least one piece. *)
Fixpoint split (sep : ascii) (s : string) : list string :=
  match s with
  | EmptyString => [EmptyString]
  | String c s' =>
      if Ascii.eqb c sep then EmptyString :: split sep s'
      else match split sep s' with
           | piece :: rest => String c piece :: rest
           | [] => [String c EmptyString]
           end
  end.

Definition toLowerChar (c : ascii) : ascii :=
  let n := nat_of_ascii c in
  if (65 <=? n) && (n <=? 90) then ascii_of_nat (n + 32) else c.

Fixpoint toLowerCase (s : string) : string :=
  match s with
  | EmptyString => EmptyString
  | String c s' => String (toLowerChar c) (toLowerCase s')
  end.

Fixpoint startsWith (s sub : string) {struct sub} : bool :=
  match sub, s with
  | EmptyString, _ => true
  | String _ _, EmptyString => false
  | String c sub', String d s' => Ascii.eqb c d && startsWith s' sub'
  end.

(** [s.includes(sub)]: [sub] starts at some position of [s]. *)
Fixpoint includes (s sub : string) : bool :=
  startsWith s sub ||
  match s with
  | EmptyString => false
  | String _ s' => includes s' sub
  end.

(** [a[i]] on an array of strings; the loader only reads below
    [a.length]. *)
Definition at_ (a : list string) (i : nat) : string := nth i a EmptyString.

End JS.

(** The line feed the loader splits on. *)
Definition LF : ascii := "010"%char.

(** ** Data model *)

Record Location : Type := mkLocation {
  latitude : Q;
  longitude : Q;
  altitude : Q
}.

(** One element of [satellites]: [{name, tle1, tle2}]. *)
Record Satellite : Type := mkSatellite {
  name : string;
  tle1 : string;
  tle2 : string
}.

(** The module-level variables of the script, and the clock [new Date()]
    reads (milliseconds since the epoch). *)
Record World : Type := mkWorld {
  userLocation : option Location;
  satellites : list Satellite;
  updateInterval : option Z;
  tleInterval : option Z;
  compassHeading : Z;
  wallClock : Z
}.

Definition setSatellites (sats : list Satellite) (w : World) : World :=
  {| userLocation := userLocation w;
     satellites := sats;
     updateInterval := updateInterval w;
     tleInterval := tleInterval w;
     compassHeading := compassHeading w;
     wallClock := wallClock w |}.

(** ** The catalog loader, [fetchTLEData] *)

(** What [fetch] resolves to: the [ok] flag, the status and what
    [response.text()] settles to. A rejected promise is a [Throw] at the
    [await]. *)
Record Response : Type := mkResponse {
  ok : bool;
  status : Z;
  text : completion string
}.

(** A statement that can read and write the module-level variables. The
    world is threaded through a [Throw] too, so that a handler sees every
    write made before the error. *)
Definition Eff (A : Type) : Type := World -> completion A * World.

Definition tryCatchEff {A} (body : Eff A) (handler : Thrown -> Eff A) : Eff A :=
  fun w =>
    match body w with
    | (Normal a, w') => (Normal a, w')
    | (Throw e, w') => handler e w'
    end.

(** The earlier script (no name filter): every complete group of three
    lines is a record. *)
Module Starlink.

Import JS.
Local Open Scope nat_scope.

(** [for (let i = 0; i < lines.length; i += 3) { if (i + 2 < lines.length) ... }];
    [fuel] bounds the number of iterations. *)
Fixpoint parseFrom (fuel : nat) (lines : list string) (i : nat)
         (sats : list Satellite) : list Satellite :=
  match fuel with
  | O => sats
  | S fuel' =>
      if i <? List.length lines then
        let sats' :=
          if i + 2 <? List.length lines then
            let name := trim (at_ lines i) in
            sats ++ [ {| name := name;
                         tle1 := at_ lines (i + 1);
                         tle2 := at_ lines (i + 2) |} ]
          else sats in
        parseFrom fuel' lines (i + 3) sats'
      else sats
  end.

(** [i] grows at every iteration, so [lines.length] iterations are never
    all used. *)
Definition parse (lines : list string) : list Satellite :=
  parseFrom (List.length lines) lines 0 [].

Definition fetchTLEData (net : completion Response) : Eff bool :=
  tryCatchEff
    (fun w =>
       match net with
       | Throw e => (Throw e, w)
       | Normal response =>
           if negb (ok response) then
             (Throw (mkError "HTTP error! status"), w)
           else
             match text response with
             | Throw e => (Throw e, w)
             | Normal text =>
                 let lines := split LF (trim text) in
                 let sats := parse lines in
                 (Normal true, setSatellites sats w)
             end
       end)
    (fun err w => (Normal false, w)).

End Starlink.

(** [app.js]: only the Direct-to-Cell records are kept. *)
Module DTC.

Import JS.
Local Open Scope nat_scope.

Definition isDTC (nameLower : string) : bool :=
  includes nameLower "dtc" ||
  includes nameLower "direct to cell" ||
  includes nameLower "direct-to-cell".

Fixpoint parseFrom (fuel : nat) (lines : list string) (i : nat)
         (sats : list Satellite) : list Satellite :=
  match fuel with
  | O => sats
  | S fuel' =>
      if i <? List.length lines then
        let sats' :=
          if i + 2 <? List.length lines then
            let name := trim (at_ lines i) in
            let nameLower := toLowerCase name in
            if isDTC nameLower then
              sats ++ [ {| name := name;
                           tle1 := at_ lines (i + 1);
                           tle2 := at_ lines (i + 2) |} ]
            else sats
          else sats in
        parseFrom fuel' lines (i + 3) sats'
      else sats
  end.

Definition parse (lines : list string) : list Satellite :=
  parseFrom (List.length lines) lines 0 [].

(** The two branches after [satellites = sats] only log. *)
Definition fetchTLEData (net : completion Response) : Eff bool :=
  tryCatchEff
    (fun w =>
       match net with
       | Throw e => (Throw e, w)
       | Normal response =>
           if negb (ok response) then
             (Throw (mkError "HTTP error! status"), w)
           else
             match text response with
             | Throw e => (Throw e, w)
             | Normal text =>
                 let lines := split LF (trim text) in
                 let sats := parse lines in
                 (Normal true, setSatellites sats w)
             end
       end)
    (fun err w => (Normal false, w)).

End DTC.

(** ** Numbers *)

Module Num.

Local Open Scope Q_scope.

(** [a > b] *)
Definition gt (a b : Q) : bool := negb (Qle_bool a b).

(** [Math.round]: the nearest integer, the larger one on a tie. *)
Definition Math_round (x : Q) : Z := Qfloor (x + (1 # 2)).

(** [x.toFixed(1)] writes the decimal with one fractional digit nearest to
    [x], the one of larger magnitude on a tie. The string is held as the
    integer it spells once the point is dropped: "25.3" is [253]. *)
Definition toFixed1 (x : Q) : Z :=
  if Qle_bool 0 x then Math_round (x * 10) else (- Math_round (- x * 10))%Z.

(** [x.toFixed(0)], held as the integer it spells. *)
Definition toFixed0 (x : Q) : Z :=
  if Qle_bool 0 x then Math_round x else (- Math_round (- x))%Z.

(** [parseFloat] of a string written by [toFixed(1)]. *)
Definition parseFloat (tenths : Z) : Q := tenths # 10.

End Num.

(** [Array.prototype.sort(compareFn)]: a stable sort that leaves [a] before
    [b] unless [compareFn(a, b) > 0]. For the comparators of the script
    (differences of a numeric key) the sorted array is unique, and the
    stable insertion sort below computes it. *)
Fixpoint insertSorted {A} (compareFn : A -> A -> Q) (x : A) (l : list A)
  : list A :=
  match l with
  | [] => [x]
  | y :: l' =>
      if Num.gt (compareFn x y) 0 then y :: insertSorted compareFn x l'
      else x :: y :: l'
  end.

Definition sort {A} (compareFn : A -> A -> Q) (l : list A) : list A :=
  fold_right (insertSorted compareFn) [] l.

(** ** The position sampler, [calculatePositions] *)

(** What satellite.js yields for a record at an instant, with the angles
    already in degrees ([lookAngles.azimuth * (180 / Math.PI)] and
    [lookAngles.elevation * (180 / Math.PI)]). *)
Record LookAngles : Type := mkLook {
  azimuthDeg : Q;
  elevationDeg : Q;
  rangeSat : Q
}.

(** An element of [visible]: the three numbers are the strings written by
    [toFixed]. *)
Module Visible.
Record t : Type := mk {
  name : string;
  azimuth : Z;
  elevation : Z;
  distance : Z
}.
End Visible.

(** An element of [upcoming]. *)
Module Pass.
Record t : Type := mk {
  name : string;
  time : Z;
  minutesUntil : Z
}.
End Pass.

(** What one call does: the early [return] of the guard, or the call
    [renderApp(visible, upcoming)]. *)
Inductive Sample : Type :=
| Waiting
| Rendered (visible : list Visible.t) (upcoming : list Pass.t).

(** The chain [twoline2satrec], [propagate], [gstime], [eciToEcf],
    [ecfToLookAngles] for the observer, the two element lines and the
    instant: it throws, or reports no valid position ([None]: [position] is
    falsy or a boolean), or yields look angles. *)
Definition Propagator : Type :=
  Location -> string -> string -> Z -> completion (option LookAngles).

Section Sampler.

Variable MIN_ELEVATION : Q.
Variable satelliteJs : Propagator.

Local Open Scope js_scope.

(** [array.forEach(callback)], the callback updating a local array; an
    error escaping the callback ends the loop. *)
Fixpoint forEach {A S} (callback : S -> A -> completion S) (array : list A)
         (s : S) : completion S :=
  match array with
  | [] => Normal s
  | x :: rest => s' <- callback s x ;; forEach callback rest s'
  end.

(** The callback of [satellites.forEach] with its [try]/[catch]; the
    handler logs [err.message]. *)
Definition checkNow (observer : Location) (now : Z)
           (visible : list Visible.t) (sat : Satellite)
  : completion (list Visible.t) :=
  tryCatch
    (positionAndVelocity <- satelliteJs observer (tle1 sat) (tle2 sat) now ;;
     match positionAndVelocity with
     | Some lookAngles =>
         let azimuth := azimuthDeg lookAngles in
         let elevation := elevationDeg lookAngles in
         if Num.gt elevation MIN_ELEVATION then
           Normal (visible ++
                   [ {| Visible.name := name sat;
                        Visible.azimuth := Num.toFixed1 azimuth;
                        Visible.elevation := Num.toFixed1 elevation;
                        Visible.distance := Num.toFixed0 (rangeSat lookAngles) |} ])
         else Normal visible
     | None => Normal visible
     end)
    (fun err => _ <- readMessage err ;; Normal visible).

Definition byElevationDesc (a b : Visible.t) : Q :=
  (Num.parseFloat (Visible.elevation b) - Num.parseFloat (Visible.elevation a))%Q.

Definition byMinutesUntil (a b : Pass.t) : Q :=
  (inject_Z (Pass.minutesUntil a) - inject_Z (Pass.minutesUntil b))%Q.

(** [upcoming.find(p => p.name === sat.name)] finds something. *)
Definition found (upcoming : list Pass.t) (sat : Satellite) : bool :=
  existsb (fun p => String.eqb (Pass.name p) (name sat)) upcoming.

(** The body of the inner [for ... of], with its [try]/[catch], whose
    handler is empty; the flag is [true] when the body leaves the loop by
    [break]. *)
Definition checkLater (observer : Location) (futureTime minutes : Z)
           (upcoming : list Pass.t) (sat : Satellite)
  : completion (list Pass.t * bool) :=
  tryCatch
    (positionAndVelocity <- satelliteJs observer (tle1 sat) (tle2 sat) futureTime ;;
     match positionAndVelocity with
     | Some lookAngles =>
         let elevation := elevationDeg lookAngles in
         if Num.gt elevation MIN_ELEVATION && negb (found upcoming sat) then
           let upcoming' :=
             upcoming ++ [ {| Pass.name := name sat;
                              Pass.time := futureTime;
                              Pass.minutesUntil := minutes |} ] in
           Normal (upcoming', (5 <=? List.length upcoming')%nat)
         else Normal (upcoming, false)
     | None => Normal (upcoming, false)
     end)
    (fun err => Normal (upcoming, false)).

(** [for (const sat of sats) { ... }] *)
Fixpoint forOf (observer : Location) (futureTime minutes : Z)
         (sats : list Satellite) (upcoming : list Pass.t)
  : completion (list Pass.t) :=
  match sats with
  | [] => Normal upcoming
  | sat :: rest =>
      r <- checkLater observer futureTime minutes upcoming sat ;;
      if snd r then Normal (fst r)
      else forOf observer futureTime minutes rest (fst r)
  end.

(** [for (let minutes = ...; minutes <= 180; minutes += 2) { ... }] from
    the current value of [minutes]; [fuel] bounds the iterations. *)
Fixpoint lookAhead (fuel : nat) (observer : Location) (now : Z)
         (sats : list Satellite) (minutes : Z) (upcoming : list Pass.t)
  : completion (list Pass.t) :=
  match fuel with
  | O => Normal upcoming
  | S fuel' =>
      if (minutes <=? 180)%Z then
        let futureTime := (now + minutes * 60 * 1000)%Z in
        upcoming' <- forOf observer futureTime minutes (firstn 100 sats) upcoming ;;
        if (5 <=? List.length upcoming')%nat then Normal upcoming'
        else lookAhead fuel' observer now sats (minutes + 2)%Z upcoming'
      else Normal upcoming
  end.

(** [minutes] starts at 1 and grows by 2 up to 180: 180 iterations are
    never all used. *)
Definition lookAheadFuel : nat := 180.

Definition calculatePositions (w : World) : completion Sample :=
  match userLocation w with
  | None => Normal Waiting
  | Some observer =>
      if (List.length (satellites w) =? 0)%nat then Normal Waiting
      else
        let now := wallClock w in
        visible <- forEach (checkNow observer now) (satellites w) [] ;;
        let visible := sort byElevationDesc visible in
        upcoming <-
          (if (List.length visible =? 0)%nat then
             upcoming <- lookAhead lookAheadFuel observer now (satellites w) 1 [] ;;
             Normal (sort byMinutesUntil upcoming)
           else Normal []) ;;
        Normal (Rendered visible upcoming)
  end.

End Sampler.

(** ** Compass labels, [getCompassDirection] *)

Definition directions : list string :=
  ["N"; "NNE"; "NE"; "ENE"; "E"; "ESE"; "SE"; "SSE";
   "S"; "SSW"; "SW"; "WSW"; "W"; "WNW"; "NW"; "NNW"].

(** [%] is the remainder of the truncating division ([Z.rem]); an index
    outside the array reads [undefined], here [None]. *)
Definition getCompassDirection (azimuth : Q) : option string :=
  let index := Z.rem (Num.Math_round (azimuth / (45 # 2))) 16 in
  if (index <? 0)%Z then None else nth_error directions (Z.to_nat index).

(** ** The sky map, [renderSkyMap] *)


Module SkyMap.

Local Open Scope R_scope.

Section Plot.

(** [const size = 300]; the plot is stated for any size of the square. *)
Variable size : R.

Definition center : R := size / 2.
Definition radius : R := size / 2 - 20.

(** The body of [visibleSatellites.forEach]: where the circle of a
    satellite is drawn. *)
Definition plot (azimuth elevation : R) : R * R :=
  let elevationRadius := radius * (1 - elevation / 90) in
  let azimuthRad := (azimuth - 90) * (PI / 180) in
  let x := center + elevationRadius * cos azimuthRad in
  let y := center + elevationRadius * sin azimuthRad in
  (x, y).

(** Distance of a point of the drawing from the centre of the map. *)
Definition fromCenter (p : R * R) : R :=
  sqrt ((fst p - center) * (fst p - center) + (snd p - center) * (snd p - center)).

End Plot.

Definition size : R := 300.

(** [parseFloat] of a string written by [toFixed(1)]. *)
Definition parseFloat (tenths : Z) : R := IZR tenths / 10.

(** The circles [renderSkyMap] draws, one per visible satellite. *)
Definition renderSkyMap (visibleSatellites : list Visible.t) : list (R * R) :=
  map (fun sat => plot size (parseFloat (Visible.azimuth sat))
                       (parseFloat (Visible.elevation sat)))
      visibleSatellites.

End SkyMap.

(** The circles are drawn inside
    [<g transform="rotate(${-heading} ${center} ${center})">]: SVG turns a
    point by [angle] degrees about [(cx, cy)], which on the page, where
    [y] grows downwards, is clockwise. *)
Definition svgRotate (angle cx cy : R) (point : R * R) : R * R :=
  let a := (angle * (PI / 180))%R in
  ((cx + (fst point - cx) * cos a - (snd point - cy) * sin a)%R,
   (cy + (fst point - cx) * sin a + (snd point - cy) * cos a)%R).

(** Where a point of the drawing shows on the page for a heading. *)
Definition onScreen (size heading : R) (point : R * R) : R * R :=
  svgRotate (- heading) (SkyMap.center size) (SkyMap.center size) point.


(** ** The page: [showLoading], [showError], [renderApp] *)

(** [x.toFixed(4)], held as the integer it spells once the point is
    dropped. *)
Definition toFixed4 (x : Q) : Z :=
  if Qle_bool 0 x then Num.Math_round (x * 10000)
  else (- Num.Math_round (- x * 10000))%Z.

(** One card of the list of satellites overhead: its number, the
    designation, the compass label of [getCompassDirection(parseFloat(sat.azimuth))]
    and the three figures as the sampler wrote them. *)
Record SatelliteCard : Type := mkSatelliteCard {
  cardNumber : nat;
  cardName : string;
  cardDirection : option string;
  cardAzimuth : Z;
  cardElevation : Z;
  cardDistance : Z
}.

(** One card of the list of next passes: "In [passMinutes] minute" with an
    "s" when [passPlural], and the time of the pass. *)
Record PassCard : Type := mkPassCard {
  passName : string;
  passMinutes : Z;
  passPlural : bool;
  passTime : Z
}.

(** The section [renderApp] writes between header and footer. *)
Inductive MainSection : Type :=
| CurrentlyOverhead (count : nat) (heading : Z) (compassEnabled : bool)
                    (cards : list SatelliteCard)
| NoSatellitesOverhead (nextPasses : option (list PassCard)).

(** What [renderApp] interpolates into its HTML, the clock reading of its
    last line apart: the location of the header, the main section and the
    number of satellites tracked of the footer. *)
Record View : Type := mkView {
  viewLocation : option (Z * Z);
  viewMain : MainSection;
  viewTracking : nat
}.

(** What [render] last put into the page. *)
Inductive Screen : Type :=
| Blank
| LoadingScreen (message subMessage : string)
| ErrorScreen (message : string)
| TrackerScreen (view : View).

(** [visibleSatellites.forEach((sat, index) => ...)] of [renderApp]. *)
Fixpoint satelliteCards (index : nat) (visibleSatellites : list Visible.t)
  : list SatelliteCard :=
  match visibleSatellites with
  | [] => []
  | sat :: rest =>
      {| cardNumber := index + 1;
         cardName := Visible.name sat;
         cardDirection := getCompassDirection (Num.parseFloat (Visible.azimuth sat));
         cardAzimuth := Visible.azimuth sat;
         cardElevation := Visible.elevation sat;
         cardDistance := Visible.distance sat |}
      :: satelliteCards (S index) rest
  end.

Definition passCard (pass : Pass.t) : PassCard :=
  {| passName := Pass.name pass;
     passMinutes := Pass.minutesUntil pass;
     passPlural := negb (Pass.minutesUntil pass =? 1)%Z;
     passTime := Pass.time pass |}.

Definition renderApp (visibleSatellites : list Visible.t)
           (nextPasses : list Pass.t) (w : World) : View :=
  {| viewLocation :=
       match userLocation w with
       | Some location => Some (toFixed4 (latitude location),
                                toFixed4 (longitude location))
       | None => None
       end;
     viewMain :=
       if (0 <? List.length visibleSatellites)%nat then
         CurrentlyOverhead (List.length visibleSatellites)
                           (compassHeading w)
                           (negb (compassHeading w =? 0)%Z)
                           (satelliteCards 0 visibleSatellites)
       else
         NoSatellitesOverhead
           (if (0 <? List.length nextPasses)%nat
            then Some (map passCard nextPasses)
            else None);
     viewTracking := List.length (satellites w) |}.

(** The script at work: its variables and its page. *)
Record Page : Type := mkPage {
  world : World;
  screen : Screen
}.

Definition show (s : Screen) (p : Page) : Page :=
  {| world := world p; screen := s |}.

Definition showLoading (message subMessage : string) : Page -> Page :=
  show (LoadingScreen message subMessage).

Definition showError (message : string) : Page -> Page :=
  show (ErrorScreen message).

Definition setWorld (w : World) (p : Page) : Page :=
  {| world := w; screen := screen p |}.

Definition setClock (clock : Z) (w : World) : World :=
  {| userLocation := userLocation w;
     satellites := satellites w;
     updateInterval := updateInterval w;
     tleInterval := tleInterval w;
     compassHeading := compassHeading w;
     wallClock := clock |}.

Definition setHeading (heading : Z) (w : World) : World :=
  {| userLocation := userLocation w;
     satellites := satellites w;
     updateInterval := updateInterval w;
     tleInterval := tleInterval w;
     compassHeading := heading;
     wallClock := wallClock w |}.

(** ** The handlers: [init], the two timers, the compass *)

(** What the geolocation service does: it is missing, it calls the error
    callback, or it calls the success callback with coordinates whose
    altitude may be [null]. *)
Inductive Geolocation : Type :=
| Unsupported
| Refused (error : Error)
| Located (latitude longitude : Q) (altitude : option Q).

(** What happens once the page runs: a timer fires at a clock reading,
    the catalog timer with the outcome of its fetch, or the device reports
    an orientation whose [alpha] may be [null]. A fetch is taken at the
    moment it settles. *)
Inductive Event : Type :=
| PositionsTimer (clock : Z)
| CatalogTimer (clock : Z) (net : completion Response)
| DeviceOrientation (clock : Z) (alpha : option Q).

Section Handlers.

Variable MIN_ELEVATION : Q.
Variable satelliteJs : Propagator.
(** [fetchTLEData] of the script at hand. *)
Variable fetchTLEData : completion Response -> Eff bool.

(** [calculatePositions()] with its effect on the page. *)
Definition samplePage (p : Page) : completion unit * Page :=
  match calculatePositions MIN_ELEVATION satelliteJs (world p) with
  | Normal Waiting => (Normal tt, p)
  | Normal (Rendered visible upcoming) =>
      (Normal tt, show (TrackerScreen (renderApp visible upcoming (world p))) p)
  | Throw e => (Throw e, p)
  end.

(** [await fetchTLEData()] with its effect on the page. *)
Definition fetchPage (net : completion Response) (p : Page)
  : completion bool * Page :=
  let (result, w) := fetchTLEData net (world p) in (result, setWorld w p).

(** [init], from the call to the end of the position callback; [timers]
    are the two identifiers [setInterval] returns. *)
Definition init (geo : Geolocation) (net : completion Response)
           (timers : Z * Z) (p : Page) : completion unit * Page :=
  let p := showLoading "Getting your location..." "" p in
  match geo with
  | Unsupported =>
      (Normal tt, showError "Geolocation is not supported by your browser" p)
  | Refused error =>
      (Normal tt,
       showError ("Location error: " ++ message error ++
                  ". Please enable location services and reload.") p)
  | Located latitude longitude altitude =>
      let location :=
        {| latitude := latitude;
           longitude := longitude;
           altitude := match altitude with Some a => a | None => 0 end |} in
      let w := world p in
      let p := setWorld {| userLocation := Some location;
                           satellites := satellites w;
                           updateInterval := updateInterval w;
                           tleInterval := tleInterval w;
                           compassHeading := compassHeading w;
                           wallClock := wallClock w |} p in
      let p := showLoading "Loading satellite data..." "Location acquired" p in
      match fetchPage net p with
      | (Throw e, p) => (Throw e, p)
      | (Normal false, p) =>
          (Normal tt,
           showError "Failed to fetch satellite data. Please check your internet connection and try again." p)
      | (Normal true, p) =>
          match samplePage p with
          | (Throw e, p) => (Throw e, p)
          | (Normal _, p) =>
              let w := world p in
              (Normal tt,
               setWorld {| userLocation := userLocation w;
                           satellites := satellites w;
                           updateInterval := Some (fst timers);
                           tleInterval := Some (snd timers);
                           compassHeading := compassHeading w;
                           wallClock := wallClock w |} p)
          end
      end
  end.

(** The listener of [startCompass]. *)
Definition onDeviceOrientation (alpha : option Q) (p : Page)
  : completion unit * Page :=
  match alpha with
  | None => (Normal tt, p)
  | Some alpha =>
      let p := setWorld (setHeading (Num.Math_round alpha) (world p)) p in
      if (0 <? List.length (satellites (world p)))%nat &&
         match userLocation (world p) with Some _ => true | None => false end
      then samplePage p
      else (Normal tt, p)
  end.

(** One event: the clock has moved on, then the handler runs. *)
Definition handle (e : Event) (p : Page) : completion unit * Page :=
  match e with
  | PositionsTimer clock =>
      samplePage (setWorld (setClock clock (world p)) p)
  | CatalogTimer clock net =>
      match fetchPage net (setWorld (setClock clock (world p)) p) with
      | (Throw e, p) => (Throw e, p)
      | (Normal _, p) => (Normal tt, p)
      end
  | DeviceOrientation clock alpha =>
      onDeviceOrientation alpha (setWorld (setClock clock (world p)) p)
  end.

(** The events in turn, up to the first one whose handler throws. *)
Fixpoint run (events : list Event) (p : Page) : completion unit * Page :=
  match events with
  | [] => (Normal tt, p)
  | e :: rest =>
      match handle e p with
      | (Throw err, p) => (Throw err, p)
      | (Normal _, p) => run rest p
      end
  end.

End Handlers.

(** ** The About box: [openAboutModal], [closeAboutModal], the Escape key *)

(** The elements of the document whose id is [aboutModal], in document
    order, each with whether its class list holds [active].
    [getElementById] finds the first one. *)
Definition Modals : Type := list bool.

(** [document.body.insertAdjacentHTML('beforeend', modalHTML)] *)
Definition createAboutModal (document : Modals) : Modals :=
  document ++ [false].

(** [document.getElementById('aboutModal').classList.add('active')] or
    [.remove('active')]: a [TypeError] when there is no such element. *)
Definition setActive (active : bool) (document : Modals) : completion Modals :=
  match document with
  | [] => Throw (mkError "Cannot read properties of null")
  | _ :: rest => Normal (active :: rest)
  end.

Definition openAboutModal (document : Modals) : completion Modals :=
  let document :=
    match document with
    | [] => createAboutModal document
    | _ :: _ => document
    end in
  setActive true document.

Definition closeAboutModal (document : Modals) : completion Modals :=
  setActive false document.

(** The [keydown] listener. *)
Definition onKeyDown (key : string) (document : Modals) : completion Modals :=
  if String.eqb key "Escape" then
    match document with
    | true :: _ => closeAboutModal document
    | _ => Normal document
    end
  else Normal document.

(** A click on the About button, a click on the cross or the backdrop of
    the box, a key. *)
Inductive ModalEvent : Type :=
| AboutClicked
| CloseClicked
| KeyDown (key : string).

Definition handleModal (e : ModalEvent) (document : Modals) : completion Modals :=
  match e with
  | AboutClicked => openAboutModal document
  | CloseClicked => closeAboutModal document
  | KeyDown key => onKeyDown key document
  end.

Fixpoint runModal (events : list ModalEvent) (document : Modals)
  : completion Modals :=
  match events with
  | [] => Normal document
  | e :: rest =>
      match handleModal e document with
      | Normal document => runModal rest document
      | Throw err => Throw err
      end
  end.

(** * Vocabulary of the statements *)

(** The record made of one group of three lines. *)
Definition recordOf (g : string * string * string) : Satellite :=
  let '(l0, l1, l2) := g in {| name := JS.trim l0; tle1 := l1; tle2 := l2 |}.

(** The complete groups of three consecutive lines, a proof device: the
    loops are shown to visit exactly these. *)
Fixpoint groupsOfThree (lines : list string) : list (string * string * string) :=
  match lines with
  | l0 :: l1 :: l2 :: rest => (l0, l1, l2) :: groupsOfThree rest
  | _ => []
  end.

(** The filtering loop keeps, of what the plain loop collects, the records
    whose lower-cased name passes [isDTC]. *)
Definition keptByFilter (sat : Satellite) : bool :=
  DTC.isDTC (JS.toLowerCase (name sat)).

(** [sub] occurs in [s]. *)
Definition occursIn (sub s : string) : Prop :=
  exists before after, s = (before ++ sub ++ after)%string.

(** The lines of a fetched document, as the loader cuts them. *)
Definition linesOf (doc : string) : list string := JS.split LF (JS.trim doc).

(** A successful fetch of [doc], with any status. *)
Definition delivers (net : completion Response) (doc : string) : Prop :=
  exists st, net = Normal {| ok := true; status := st; text := Normal doc |}.

(** The three ways a fetch fails: the transport rejects, the status is not
    a success, reading the body rejects. *)
Definition fails (net : completion Response) : Prop :=
  match net with
  | Throw _ => True
  | Normal response =>
      ok response = false \/ exists e, text response = Throw e
  end.

(** The name filter of [app.js]. *)
Definition filterSubstrings : list string :=
  ["dtc"; "direct to cell"; "direct-to-cell"].

(** [lines.join] with a line feed, to write documents down. *)
Fixpoint unlines (lines : list string) : string :=
  match lines with
  | [] => EmptyString
  | [l] => l
  | l :: rest => (l ++ String LF (unlines rest))%string
  end.

(** A line holds no line feed. *)
Definition singleLine (l : string) : Prop :=
  ~ In LF (list_ascii_of_string l).

(** What the sampler retains of one propagation: the look angles when the
    library returns some with an elevation above the threshold, nothing
    when it throws, reports no valid position or the satellite is low. *)
Definition clears (MIN_ELEVATION : Q) (satelliteJs : Propagator)
           (observer : Location) (sat : Satellite) (t : Z)
  : option LookAngles :=
  match satelliteJs observer (tle1 sat) (tle2 sat) t with
  | Normal (Some lookAngles) =>
      if Num.gt (elevationDeg lookAngles) MIN_ELEVATION then Some lookAngles
      else None
  | Normal None => None
  | Throw _ => None
  end.

(** The propagation of a record at an instant throws or reports no valid
    position. *)
Definition propagationFails (satelliteJs : Propagator) (observer : Location)
           (sat : Satellite) (t : Z) : Prop :=
  match satelliteJs observer (tle1 sat) (tle2 sat) t with
  | Normal (Some _) => False
  | Normal None => True
  | Throw _ => True
  end.

(** The propagation of a record at an instant throws [null] or
    [undefined]. *)
Definition throwsNullish (satelliteJs : Propagator) (observer : Location)
           (t : Z) (sat : Satellite) : bool :=
  match satelliteJs observer (tle1 sat) (tle2 sat) t with
  | Throw Nullish => true
  | _ => false
  end.

(** A library that throws nothing but values whose properties can be
    read. *)
Definition throwsObjects (satelliteJs : Propagator) : Prop :=
  forall observer line1 line2 t,
    satelliteJs observer line1 line2 t <> Throw Nullish.

(** The [TypeError] of [err.message] on [null]. *)
Definition messageOfNull : Thrown :=
  mkError "Cannot read properties of null (reading 'message')".

(** The entry pushed for a record with the given look angles. *)
Definition entryOf (sat : Satellite) (lookAngles : LookAngles) : Visible.t :=
  {| Visible.name := name sat;
     Visible.azimuth := Num.toFixed1 (azimuthDeg lookAngles);
     Visible.elevation := Num.toFixed1 (elevationDeg lookAngles);
     Visible.distance := Num.toFixed0 (rangeSat lookAngles) |}.

(** The entries one record contributes to [visible]: one or none. *)
Definition contribution (MIN_ELEVATION : Q) (satelliteJs : Propagator)
           (observer : Location) (now : Z) (sat : Satellite)
  : list Visible.t :=
  match clears MIN_ELEVATION satelliteJs observer sat now with
  | Some lookAngles => [entryOf sat lookAngles]
  | None => []
  end.

(** Highest elevation first. *)
Definition elevationDescending (l : list Visible.t) : Prop :=
  StronglySorted (fun a b => (Visible.elevation b <= Visible.elevation a)%Z) l.

(** Soonest pass first. *)
Definition minutesAscending (l : list Pass.t) : Prop :=
  StronglySorted (fun a b => (Pass.minutesUntil a <= Pass.minutesUntil b)%Z) l.

(** The entries of a list that show a given elevation, in their order. *)
Definition withElevation (e : Z) (l : list Visible.t) : list Visible.t :=
  filter (fun v => (Visible.elevation v =? e)%Z) l.

(** The pass pushed for a record found at [futureTime]. *)
Definition passOf (sat : Satellite) (futureTime minutes : Z) : Pass.t :=
  {| Pass.name := name sat; Pass.time := futureTime; Pass.minutesUntil := minutes |}.

(** No two passes carry the same designation. *)
Definition distinctNames (upcoming : list Pass.t) : Prop :=
  NoDup (map Pass.name upcoming).

(** The instant the scan looks at for a value of [minutes]. *)
Definition instantAt (now minutes : Z) : Z := (now + minutes * 60 * 1000)%Z.

(** The values [minutes] takes in the scan: 1, 3, ..., 179. *)
Definition scanned (minutes : Z) : Prop :=
  (1 <= minutes <= 180)%Z /\ Z.odd minutes = true.

(** A record is above the threshold at an instant. *)
Definition above (MIN_ELEVATION : Q) (satelliteJs : Propagator)
           (observer : Location) (sat : Satellite) (t : Z) : Prop :=
  clears MIN_ELEVATION satelliteJs observer sat t <> None.

(** A designation is among the passes. *)
Definition announced (upcoming : list Pass.t) (designation : string) : Prop :=
  In designation (map Pass.name upcoming).

(** A pass is sound: its minutes are among those scanned, its time is the
    instant scanned for them, and a record of [sats] with its designation
    is above the threshold then. *)
Definition passSound (MIN_ELEVATION : Q) (satelliteJs : Propagator)
           (observer : Location) (now : Z) (sats : list Satellite)
           (p : Pass.t) : Prop :=
  scanned (Pass.minutesUntil p) /\
  Pass.time p = instantAt now (Pass.minutesUntil p) /\
  exists sat,
    In sat sats /\ name sat = Pass.name p /\
    above MIN_ELEVATION satelliteJs observer sat (Pass.time p).

(** A pass is the earliest: no record of [sats] with its designation is
    above the threshold at an instant scanned before it. *)
Definition passEarliest (MIN_ELEVATION : Q) (satelliteJs : Propagator)
           (observer : Location) (now : Z) (sats : list Satellite)
           (p : Pass.t) : Prop :=
  forall sat minutes,
    In sat sats -> name sat = Pass.name p ->
    scanned minutes -> (minutes < Pass.minutesUntil p)%Z ->
    ~ above MIN_ELEVATION satelliteJs observer sat (instantAt now minutes).

(** Every record of [sats] above the threshold at an instant scanned
    before [minutes] is announced. *)
Definition coveredBefore (MIN_ELEVATION : Q) (satelliteJs : Propagator)
           (observer : Location) (now : Z) (sats : list Satellite)
           (minutes : Z) (upcoming : list Pass.t) : Prop :=
  forall sat m,
    In sat sats -> scanned m -> (m < minutes)%Z ->
    above MIN_ELEVATION satelliteJs observer sat (instantAt now m) ->
    announced upcoming (name sat).

(** The document a fetch delivers, if it does. *)
Definition documentOf (net : completion Response) : option string :=
  match net with
  | Normal response =>
      if ok response then
        match text response with
        | Normal doc => Some doc
        | Throw _ => None
        end
      else None
  | Throw _ => None
  end.

(** The world after a series of refreshes by [app.js], one per outcome of
    the network. *)
Definition refreshAll (nets : list (completion Response)) (w : World) : World :=
  fold_left (fun w net => snd (DTC.fetchTLEData net w)) nets w.

(** The document of the last fetch that delivered one, [seed] if none
    did. *)
Definition lastDelivered (nets : list (completion Response))
           (seed : option string) : option string :=
  fold_left (fun acc net => match documentOf net with
                            | Some doc => Some doc
                            | None => acc
                            end) nets seed.

(** A string carries no white space at its start and none at its end. *)
Definition trimmed (s : string) : Prop :=
  (forall c rest, s = String c rest -> JS.isWhiteSpace c = false) /\
  (forall front c, s = (front ++ String c EmptyString)%string ->
                   JS.isWhiteSpace c = false).

(** An event that leaves an empty catalog empty: any but a refresh that
    delivers a document with a Direct-to-Cell record. *)
Definition bringsNoRecord (e : Event) : Prop :=
  match e with
  | CatalogTimer _ net =>
      match documentOf net with
      | Some doc => DTC.parse (linesOf doc) = []
      | None => True
      end
  | PositionsTimer _ => True
  | DeviceOrientation _ _ => True
  end.

(** The location [init] stores for the coordinates it is called back
    with. *)
Definition locationOf (lat lon : Q) (alt : option Q) : Location :=
  {| latitude := lat;
     longitude := lon;
     altitude := match alt with Some a => a | None => 0 end |}.

(** The About box as a user sees it: not there yet ([None]), hidden
    ([Some false]) or shown ([Some true]). *)
Definition aboutBox (box : option bool) (e : ModalEvent) : option bool :=
  match e with
  | AboutClicked => Some true
  | CloseClicked => match box with Some _ => Some false | None => None end
  | KeyDown key =>
      if String.eqb key "Escape" then
        match box with Some _ => Some false | None => None end
      else box
  end.

(** The cross and the backdrop are part of the box: they are clicked only
    once the box is there. *)
Fixpoint closesOnlyABox (box : option bool) (events : list ModalEvent) : Prop :=
  match events with
  | [] => True
  | e :: rest =>
      match e, box with
      | CloseClicked, None => False
      | _, _ => closesOnlyABox (aboutBox box e) rest
      end
  end.

(** The document that holds the box and nothing else with its id. *)
Definition documentOfBox (box : option bool) : Modals :=
  match box with
  | Some active => [active]
  | None => []
  end.

(** ** Sample collaborators and worlds for the concrete runs *)

(** A stand-in for satellite.js that reads its answer off the first element
    line: "overhead" is at 40 degrees all the time, "rising" climbs above
    30 degrees ten minutes after the epoch, "low" stays at 10 degrees,
    "decayed" has no valid position, and anything else makes the library
    throw. *)
Definition demoJs : Propagator :=
  fun observer tle1 tle2 t =>
    if String.eqb tle1 "overhead" then
      Normal (Some {| azimuthDeg := 90; elevationDeg := 40; rangeSat := 550 |})
    else if String.eqb tle1 "rising" then
      Normal (Some {| azimuthDeg := 123 # 10;
                      elevationDeg := if (600000 <=? t)%Z then 3005 # 100 else 5;
                      rangeSat := 1200 |})
    else if String.eqb tle1 "low" then
      Normal (Some {| azimuthDeg := 200; elevationDeg := 10; rangeSat := 2000 |})
    else if String.eqb tle1 "decayed" then Normal None
    else Throw (mkError "bad element set").

(** The same library, except that "null" makes it throw [null]. *)
Definition demoNullJs : Propagator :=
  fun observer tle1 tle2 t =>
    if String.eqb tle1 "null" then Throw Nullish
    else demoJs observer tle1 tle2 t.

Definition origin : Location :=
  {| latitude := 0; longitude := 0; altitude := 0 |}.

Definition worldAt (clock : Z) (heading : Z) (sats : list Satellite) : World :=
  {| userLocation := Some origin;
     satellites := sats;
     updateInterval := None;
     tleInterval := None;
     compassHeading := heading;
     wallClock := clock |}.

Definition demoSat (designation elements : string) : Satellite :=
  {| name := designation; tle1 := elements; tle2 := "2" |}.

(** Two records overhead among one that rises later, one that makes the
    library throw, one without a valid position and one that stays low. *)
Definition mixedCatalog : list Satellite :=
  [demoSat "A" "rising"; demoSat "B" "garbled"; demoSat "C" "overhead";
   demoSat "D" "decayed"; demoSat "E" "low"; demoSat "F" "overhead"].

(** Nothing overhead at the epoch; seven records rise ten minutes later,
    one designation twice. *)
Definition risingCatalog : list Satellite :=
  [demoSat "A" "rising"; demoSat "B" "garbled"; demoSat "C" "rising";
   demoSat "D" "decayed"; demoSat "E" "low"; demoSat "F" "rising";
   demoSat "G" "rising"; demoSat "A" "rising"; demoSat "H" "rising";
   demoSat "I" "rising"].

Definition risingPasses : list Pass.t :=
  map (fun designation =>
         {| Pass.name := designation; Pass.time := 660000; Pass.minutesUntil := 11 |})
      ["A"; "C"; "F"; "G"; "H"].

(** * Properties *)

(** ** The loader *)

Section LoaderFacts.

Import JS.
Local Open Scope nat_scope.

Lemma skipn_at (lines : list string) : forall i,
  i < List.length lines -> skipn i lines = at_ lines i :: skipn (S i) lines.
Proof.
  induction lines as [|l lines IH]; intros i Hi; simpl in Hi; [lia|].
  destruct i as [|i]; [reflexivity|].
  simpl. apply IH. lia.
Qed.

Lemma skipn_three (lines : list string) (i : nat) :
  i + 2 < List.length lines ->
  skipn i lines =
  at_ lines i :: at_ lines (i + 1) :: at_ lines (i + 2) :: skipn (i + 3) lines.
Proof.
  intros Hi.
  rewrite (skipn_at lines i) by lia.
  rewrite (skipn_at lines (S i)) by lia.
  rewrite (skipn_at lines (S (S i))) by lia.
  replace (i + 1) with (S i) by lia.
  replace (i + 2) with (S (S i)) by lia.
  replace (i + 3) with (S (S (S i))) by lia.
  reflexivity.
Qed.

Lemma groupsOfThree_short (lines : list string) :
  List.length lines < 3 -> groupsOfThree lines = [].
Proof.
  destruct lines as [|a [|b [|c rest]]]; simpl; intros; try reflexivity; lia.
Qed.

Lemma parseFrom_past_end fuel lines i sats :
  List.length lines <= i -> Starlink.parseFrom fuel lines i sats = sats.
Proof.
  intros Hi. destruct fuel; simpl; [reflexivity|].
  destruct (Nat.ltb_spec i (List.length lines)); [lia|reflexivity].
Qed.

(** The loop visits the complete groups from line [i] on, as long as the
    fuel covers the lines that remain. *)
Lemma parseFrom_groups : forall fuel lines i sats,
  List.length lines <= i + fuel ->
  Starlink.parseFrom fuel lines i sats =
  sats ++ map recordOf (groupsOfThree (skipn i lines)).
Proof.
  induction fuel as [|fuel IH]; intros lines i sats Hfuel.
  - simpl. rewrite skipn_all2 by lia. simpl. now rewrite app_nil_r.
  - simpl. destruct (Nat.ltb_spec i (List.length lines)) as [Hi|Hi].
    + destruct (Nat.ltb_spec (i + 2) (List.length lines)) as [Hi2|Hi2].
      * rewrite IH by lia. rewrite (skipn_three lines i Hi2). simpl.
        rewrite <- app_assoc. reflexivity.
      * rewrite parseFrom_past_end by lia.
        rewrite groupsOfThree_short; [simpl; now rewrite app_nil_r|].
        rewrite length_skipn. lia.
    + rewrite skipn_all2 by lia. simpl. now rewrite app_nil_r.
Qed.

Lemma parse_groups lines :
  Starlink.parse lines = map recordOf (groupsOfThree lines).
Proof.
  unfold Starlink.parse. rewrite parseFrom_groups by lia. reflexivity.
Qed.

(** More fuel than the lines that remain changes nothing. *)
Lemma parseFrom_fuel fuel fuel' lines i sats :
  List.length lines <= i + fuel -> List.length lines <= i + fuel' ->
  Starlink.parseFrom fuel lines i sats = Starlink.parseFrom fuel' lines i sats.
Proof.
  intros H H'. now rewrite !parseFrom_groups.
Qed.

Lemma groupsOfThree_length_aux : forall n lines,
  List.length lines <= n ->
  List.length (groupsOfThree lines) = List.length lines / 3.
Proof.
  induction n as [|n IH]; intros lines Hn.
  - destruct lines; [reflexivity|simpl in Hn; lia].
  - destruct lines as [|a [|b [|c rest]]]; try reflexivity.
    cbn [groupsOfThree List.length].
    rewrite IH by (simpl in Hn; lia).
    change (S (S (S (List.length rest)))) with (3 + List.length rest).
    replace (3 + List.length rest) with (1 * 3 + List.length rest) by lia.
    rewrite Nat.div_add_l by lia. reflexivity.
Qed.

Lemma groupsOfThree_length lines :
  List.length (groupsOfThree lines) = List.length lines / 3.
Proof. apply groupsOfThree_length_aux with (n := List.length lines). lia. Qed.

Lemma groupsOfThree_nth : forall k lines,
  k < List.length lines / 3 ->
  nth_error (groupsOfThree lines) k =
  Some (at_ lines (3 * k), at_ lines (3 * k + 1), at_ lines (3 * k + 2)).
Proof.
  induction k as [|k IH]; intros lines Hk.
  - destruct lines as [|a [|b [|c rest]]]; simpl in Hk; try lia. reflexivity.
  - destruct lines as [|a [|b [|c rest]]]; try (simpl in Hk; lia).
    cbn [groupsOfThree nth_error].
    rewrite IH.
    + replace (3 * S k) with (S (S (S (3 * k)))) by lia.
      replace (S (S (S (3 * k))) + 1) with (S (S (S (3 * k + 1)))) by lia.
      replace (S (S (S (3 * k))) + 2) with (S (S (S (3 * k + 2)))) by lia.
      reflexivity.
    + change (List.length (a :: b :: c :: rest)) with (3 + List.length rest) in Hk.
      replace (3 + List.length rest) with (1 * 3 + List.length rest) in Hk by lia.
      rewrite Nat.div_add_l in Hk by lia. lia.
Qed.

Lemma DTC_parseFrom_filter : forall fuel lines i sats,
  DTC.parseFrom fuel lines i (filter keptByFilter sats) =
  filter keptByFilter (Starlink.parseFrom fuel lines i sats).
Proof.
  induction fuel as [|fuel IH]; intros lines i sats; [reflexivity|].
  simpl. destruct (i <? List.length lines); [|reflexivity].
  destruct (i + 2 <? List.length lines); [|apply IH].
  rewrite <- IH. rewrite filter_app. cbn [filter].
  match goal with
  | |- context [keptByFilter (mkSatellite ?n ?a ?b)] =>
      change (keptByFilter (mkSatellite n a b)) with (DTC.isDTC (toLowerCase n))
  end.
  destruct (DTC.isDTC (toLowerCase (trim (at_ lines i)))).
  - reflexivity.
  - now rewrite app_nil_r.
Qed.

Lemma DTC_parse_filter lines :
  DTC.parse lines = filter keptByFilter (Starlink.parse lines).
Proof.
  unfold DTC.parse, Starlink.parse.
  now rewrite <- DTC_parseFrom_filter.
Qed.

Lemma startsWith_spec : forall sub s,
  startsWith s sub = true <-> exists after, s = (sub ++ after)%string.
Proof.
  induction sub as [|c sub IH]; intros s.
  - simpl. destruct s; split; intros; eauto.
  - destruct s as [|d s]; simpl.
    + split; [discriminate|]. intros [after H]. discriminate.
    + rewrite andb_true_iff, IH. split.
      * intros [Hc [after ->]]. apply Ascii.eqb_eq in Hc. subst. eauto.
      * intros [after H]. injection H as -> ->. split; [apply Ascii.eqb_refl|eauto].
Qed.

Lemma includes_spec : forall s sub,
  includes s sub = true <-> occursIn sub s.
Proof.
  induction s as [|d s IH]; intros sub.
  - simpl. rewrite orb_false_r, startsWith_spec. split.
    + intros [after H]. exists EmptyString, after. exact H.
    + intros [[|b before] [after H]]; [eauto|discriminate].
  - cbn [includes]. rewrite orb_true_iff, startsWith_spec, IH. split.
    + intros [[after H]|[before [after H]]].
      * exists EmptyString, after. exact H.
      * exists (String d before), after. simpl. now rewrite H.
    + intros [[|b before] [after H]].
      * left. eauto.
      * right. simpl in H. injection H as _ H. exists before, after. exact H.
Qed.

End LoaderFacts.

Lemma isDTC_spec (nameLower : string) :
  DTC.isDTC nameLower = true <->
  exists sub, In sub filterSubstrings /\ occursIn sub nameLower.
Proof.
  unfold DTC.isDTC, filterSubstrings.
  rewrite !orb_true_iff, !includes_spec. simpl. split.
  - intros [[H|H]|H]; eauto 6.
  - intros [sub [[<-|[<-|[<-|[]]]] H]]; auto.
Qed.

Lemma fails_or_delivers (net : completion Response) :
  fails net \/ exists doc, delivers net doc.
Proof.
  destruct net as [[[|] st [doc|e]]|e]; simpl; eauto.
  right. exists doc, st. reflexivity.
Qed.

Lemma delivers_not_fails net doc : delivers net doc -> ~ fails net.
Proof.
  intros [st ->]. simpl. intros [H|[e H]]; discriminate.
Qed.

(** Whatever the document, the loader without name filter stores one
    record per complete group of three of the lines it cuts. *)
Lemma loader_groups_cut_lines (st : Z) (doc : string) (w : World) :
  let lines := linesOf doc in
  let run := Starlink.fetchTLEData
               (Normal {| ok := true; status := st; text := Normal doc |}) w in
  fst run = Normal true /\
  List.length (satellites (snd run)) = (List.length lines / 3)%nat /\
  (forall k, (k < List.length lines / 3)%nat ->
     nth_error (satellites (snd run)) k =
     Some {| name := JS.trim (JS.at_ lines (3 * k));
             tle1 := JS.at_ lines (3 * k + 1);
             tle2 := JS.at_ lines (3 * k + 2) |}) /\
  (List.length lines = 7%nat -> List.length (satellites (snd run)) = 2%nat).
Proof.
  intros lines run.
  assert (Hrun : run = (Normal true, setSatellites (Starlink.parse lines) w))
    by reflexivity.
  rewrite Hrun. cbn [fst snd setSatellites satellites].
  rewrite parse_groups.
  assert (Hlen : List.length (map recordOf (groupsOfThree lines))
                 = (List.length lines / 3)%nat)
    by (rewrite length_map; apply groupsOfThree_length).
  repeat split.
  - exact Hlen.
  - intros k Hk. rewrite nth_error_map, groupsOfThree_nth by exact Hk.
    reflexivity.
  - intros H7. rewrite Hlen, H7. reflexivity.
Qed.

Lemma split_singleLine : forall l,
  singleLine l -> JS.split LF l = [l].
Proof.
  unfold singleLine. induction l as [|c l IH]; intros Hl; [reflexivity|].
  simpl in *. destruct (Ascii.eqb_spec c LF) as [->|Hc]; [tauto|].
  rewrite IH by tauto. reflexivity.
Qed.

Lemma split_line_then : forall l rest,
  singleLine l ->
  JS.split LF (l ++ String LF rest) = l :: JS.split LF rest.
Proof.
  unfold singleLine. induction l as [|c l IH]; intros rest Hl.
  - reflexivity.
  - simpl in *. destruct (Ascii.eqb_spec c LF) as [->|Hc]; [tauto|].
    rewrite IH by tauto. reflexivity.
Qed.

(** Cutting at the line feeds undoes joining with them. *)
Lemma split_unlines : forall ls,
  ls <> [] -> Forall singleLine ls -> JS.split LF (unlines ls) = ls.
Proof.
  induction ls as [|l ls IH]; intros Hne Hls; [congruence|].
  inversion Hls as [|? ? Hl Hrest]; subst.
  destruct ls as [|l' ls].
  - simpl. now apply split_singleLine.
  - change (unlines (l :: l' :: ls)) with (l ++ String LF (unlines (l' :: ls)))%string.
    rewrite split_line_then by exact Hl.
    rewrite IH; [reflexivity|discriminate|exact Hrest].
Qed.

(** C6, as amended: the loader without name filter trims the document as
    a whole before it cuts it into lines. For [lines] the lines of the
    trimmed document, it stores exactly floor(lineCount / 3) records, the
    k-th made of lines 3k, 3k+1 and 3k+2: the first, trimmed, is the
    designation, the other two are the element lines as they are. The
    lines left over after the last complete group are dropped, so 7 lines
    give 2 records. *)
Theorem loader_groups_of_three (st : Z) (doc : string) (w : World)
        (lines : list string) :
  lines <> [] -> Forall singleLine lines -> JS.trim doc = unlines lines ->
  let run := Starlink.fetchTLEData
               (Normal {| ok := true; status := st; text := Normal doc |}) w in
  fst run = Normal true /\
  List.length (satellites (snd run)) = (List.length lines / 3)%nat /\
  (forall k, (k < List.length lines / 3)%nat ->
     nth_error (satellites (snd run)) k =
     Some {| name := JS.trim (JS.at_ lines (3 * k));
             tle1 := JS.at_ lines (3 * k + 1);
             tle2 := JS.at_ lines (3 * k + 2) |}) /\
  (List.length lines = 7%nat -> List.length (satellites (snd run)) = 2%nat).
Proof.
  intros Hne Hlines Hdoc.
  assert (Hcut : linesOf doc = lines).
  { unfold linesOf. rewrite Hdoc. now apply split_unlines. }
  pose proof (loader_groups_cut_lines st doc w) as H.
  rewrite Hcut in H. exact H.
Qed.

Lemma loader_groups_of_three_witness :
  List.length
    (satellites
       (snd (Starlink.fetchTLEData
               (Normal {| ok := true; status := 200;
                          text := Normal (unlines ["A"; "l1a"; "l2a";
                                                   "B"; "l1b"; "l2b"; "C"; ""]) |})
               (worldAt 0 0 [])))) = 2%nat.
Proof.
  destruct (loader_groups_of_three 200
              (unlines ["A"; "l1a"; "l2a"; "B"; "l1b"; "l2b"; "C"; ""])
              (worldAt 0 0 [])
              ["A"; "l1a"; "l2a"; "B"; "l1b"; "l2b"; "C"])
    as [_ [_ [_ H7]]].
  - discriminate.
  - repeat constructor; unfold singleLine; simpl; intros H;
      repeat (destruct H as [H|H]; [discriminate H|]); exact H.
  - vm_compute. reflexivity.
  - apply H7. reflexivity.
Defined.

(** C6, as stated, fails for the document's own lines: [text.trim()]
    takes the white space off the end of the last line, so the second
    element line of the last record is not stored as it is in the
    document. *)
Lemma loader_trims_the_last_element_line :
  satellites
    (snd (Starlink.fetchTLEData
            (Normal {| ok := true; status := 200;
                       text := Normal (unlines ["A"; "l1 "; "l2 "]) |})
            (worldAt 0 0 [])))
  = [ {| name := "A"; tle1 := "l1 "; tle2 := "l2" |} ] /\
  nth_error
    (satellites
       (snd (Starlink.fetchTLEData
               (Normal {| ok := true; status := 200;
                          text := Normal (unlines ["A"; "l1 "; "l2 "]) |})
               (worldAt 0 0 [])))) 0
  <> Some {| name := "A"; tle1 := "l1 "; tle2 := "l2 " |}.
Proof.
  split; [vm_compute; reflexivity|vm_compute; discriminate].
Qed.

(** The two documents of the specification: six lines, and the same with
    a seventh line left over. *)
Example loader_six_lines :
  Starlink.parse (linesOf (unlines ["A"; "l1a"; "l2a"; "B"; "l1b"; "l2b"])) =
  [ {| name := "A"; tle1 := "l1a"; tle2 := "l2a" |};
    {| name := "B"; tle1 := "l1b"; tle2 := "l2b" |} ].
Proof. vm_compute. reflexivity. Qed.

Example loader_seven_lines :
  Starlink.parse (linesOf (unlines ["A"; "l1a"; "l2a"; "B"; "l1b"; "l2b"; "C"])) =
  [ {| name := "A"; tle1 := "l1a"; tle2 := "l2a" |};
    {| name := "B"; tle1 := "l1b"; tle2 := "l2b" |} ].
Proof. vm_compute. reflexivity. Qed.

(** C7: the filtering loader stores the parsed records whose lower-cased
    designation contains "dtc", "direct to cell" or "direct-to-cell", in
    the order of the document; when none matches, the stored catalog is
    empty and the loader still answers [true]. *)
Theorem filtering_loader_keeps_matching (st : Z) (doc : string) (w : World) :
  let parsed := Starlink.parse (linesOf doc) in
  let run := DTC.fetchTLEData
               (Normal {| ok := true; status := st; text := Normal doc |}) w in
  fst run = Normal true /\
  satellites (snd run) = filter keptByFilter parsed /\
  (forall sat, keptByFilter sat = true <->
     exists sub, In sub filterSubstrings /\
                 occursIn sub (JS.toLowerCase (name sat))) /\
  ((forall sat, In sat parsed -> keptByFilter sat = false) ->
   satellites (snd run) = []).
Proof.
  intros parsed run.
  assert (Hrun : run = (Normal true, setSatellites (DTC.parse (linesOf doc)) w))
    by reflexivity.
  rewrite Hrun. cbn [fst snd setSatellites satellites].
  rewrite DTC_parse_filter. fold parsed.
  repeat split.
  - apply isDTC_spec.
  - apply isDTC_spec.
  - intros Hnone. induction parsed as [|sat rest IH]; [reflexivity|].
    simpl. rewrite (Hnone sat) by (now left).
    apply IH. intros s Hs. apply Hnone. now right.
Qed.

Lemma filtering_loader_keeps_matching_witness :
  satellites
    (snd (DTC.fetchTLEData
            (Normal {| ok := true; status := 200;
                       text := Normal (unlines ["STARLINK-1008"; "1 a"; "2 a";
                                                "STARLINK-1009"; "1 b"; "2 b"]) |})
            (worldAt 0 0 mixedCatalog))) = [].
Proof.
  destruct (filtering_loader_keeps_matching 200
              (unlines ["STARLINK-1008"; "1 a"; "2 a"; "STARLINK-1009"; "1 b"; "2 b"])
              (worldAt 0 0 mixedCatalog))
    as [_ [_ [_ Hnone]]].
  apply Hnone. intros sat [<-|[<-|[]]]; reflexivity.
Defined.

(** Designations in mixed case, kept in the order of the document. *)
Example filtering_loader_mixed_names :
  DTC.parse (linesOf (unlines ["STARLINK-11 [DTC]   "; "1 a"; "2 a";
                               "STARLINK-1009"; "1 b"; "2 b";
                               "Starlink Direct to Cell 7"; "1 c"; "2 c";
                               "orphan"])) =
  [ {| name := "STARLINK-11 [DTC]"; tle1 := "1 a"; tle2 := "2 a" |};
    {| name := "Starlink Direct to Cell 7"; tle1 := "1 c"; tle2 := "2 c" |} ].
Proof. vm_compute. reflexivity. Qed.

(** C10: [fetchTLEData], with and without the name filter, never throws.
    When the transport rejects, the status is not a success or the body
    cannot be read, it answers [false] and the world, the stored catalog
    included, is as it was. Otherwise it answers [true] and the stored
    catalog is the one parsed from the document, the old one gone. *)
Theorem fetchTLEData_all_or_nothing (net : completion Response) (w : World) :
  (fails net \/ exists doc, delivers net doc) /\
  (fails net ->
     Starlink.fetchTLEData net w = (Normal false, w) /\
     DTC.fetchTLEData net w = (Normal false, w)) /\
  (forall doc, delivers net doc ->
     Starlink.fetchTLEData net w
       = (Normal true, setSatellites (Starlink.parse (linesOf doc)) w) /\
     DTC.fetchTLEData net w
       = (Normal true, setSatellites (DTC.parse (linesOf doc)) w)) /\
  (exists b w',
     Starlink.fetchTLEData net w = (Normal b, w') /\
     (b = false -> w' = w)) /\
  (exists b w',
     DTC.fetchTLEData net w = (Normal b, w') /\
     (b = false -> w' = w)).
Proof.
  split; [apply fails_or_delivers|].
  split.
  { destruct net as [[[|] st [doc|e]]|e]; simpl; intros H; try (split; reflexivity).
    destruct H as [H|[e H]]; discriminate. }
  split.
  { intros doc [st ->]. split; reflexivity. }
  destruct net as [[[|] st [doc|e]]|e]; split;
    try (exists false, w; split; [reflexivity|reflexivity]);
    eexists true, _; (split; [reflexivity|discriminate]).
Qed.

Lemma fetchTLEData_all_or_nothing_witness :
  DTC.fetchTLEData (Normal {| ok := false; status := 503; text := Normal "busy" |})
                   (worldAt 0 0 mixedCatalog) =
  (Normal false, worldAt 0 0 mixedCatalog) /\
  DTC.fetchTLEData (Throw (mkError "Failed to fetch")) (worldAt 0 0 mixedCatalog) =
  (Normal false, worldAt 0 0 mixedCatalog).
Proof.
  destruct (fetchTLEData_all_or_nothing
              (Normal {| ok := false; status := 503; text := Normal "busy" |})
              (worldAt 0 0 mixedCatalog)) as [_ [Hstatus _]].
  destruct (fetchTLEData_all_or_nothing
              (Throw (mkError "Failed to fetch"))
              (worldAt 0 0 mixedCatalog)) as [_ [Hnet _]].
  split.
  - apply Hstatus. left. reflexivity.
  - apply Hnet. exact I.
Defined.

(** ** [Array.prototype.sort] *)

Section SortFacts.

Variable A : Type.
Variable compareFn : A -> A -> Q.

Lemma insertSorted_perm (x : A) (l : list A) :
  Permutation (insertSorted compareFn x l) (x :: l).
Proof.
  induction l as [|y l IH]; simpl; [apply Permutation_refl|].
  destruct (Num.gt (compareFn x y) 0).
  - eapply perm_trans; [apply perm_skip, IH|apply perm_swap].
  - apply Permutation_refl.
Qed.

Lemma sort_perm (l : list A) : Permutation (sort compareFn l) l.
Proof.
  induction l as [|x l IH]; simpl; [constructor|].
  eapply perm_trans; [apply insertSorted_perm|now apply perm_skip].
Qed.

(** Entries of one class that the comparator never orders strictly keep
    their relative order. *)
Section Stable.

Variable class : A -> bool.
Hypothesis class_tied : forall x y,
  class x = true -> class y = true -> Num.gt (compareFn x y) 0 = false.

Lemma insertSorted_stable (x : A) (l : list A) :
  filter class (insertSorted compareFn x l) = filter class (x :: l).
Proof.
  induction l as [|y l IH]; [reflexivity|].
  cbn [insertSorted].
  destruct (Num.gt (compareFn x y) 0) eqn:Hgt; [|reflexivity].
  cbn [filter] in *. rewrite IH.
  destruct (class x) eqn:Hx; [|reflexivity].
  destruct (class y) eqn:Hy; [|reflexivity].
  rewrite (class_tied x y Hx Hy) in Hgt. discriminate.
Qed.

Lemma sort_stable (l : list A) :
  filter class (sort compareFn l) = filter class l.
Proof.
  induction l as [|x l IH]; [reflexivity|].
  cbn [sort fold_right]. fold (sort compareFn l).
  rewrite insertSorted_stable. cbn [filter]. now rewrite IH.
Qed.

End Stable.

(** A comparator that decides a total preorder sorts by it. *)
Section Sorted.

Variable precedes : A -> A -> Prop.
Hypothesis precedes_trans : forall a b c,
  precedes a b -> precedes b c -> precedes a c.
Hypothesis compare_le : forall a b,
  Num.gt (compareFn a b) 0 = false -> precedes a b.
Hypothesis compare_gt : forall a b,
  Num.gt (compareFn a b) 0 = true -> precedes b a.

Lemma insertSorted_sorted (x : A) (l : list A) :
  StronglySorted precedes l ->
  StronglySorted precedes (insertSorted compareFn x l).
Proof.
  induction l as [|y l IH]; intros Hl; simpl.
  - constructor; constructor.
  - inversion Hl as [|? ? Hl' Hy]; subst.
    destruct (Num.gt (compareFn x y) 0) eqn:Hgt.
    + constructor; [now apply IH|].
      apply (Permutation_Forall (Permutation_sym (insertSorted_perm x l))).
      constructor; [now apply compare_gt|exact Hy].
    + constructor; [exact Hl|].
      constructor; [now apply compare_le|].
      eapply Forall_impl; [|exact Hy].
      intros z Hz. eapply precedes_trans; [apply compare_le; exact Hgt|exact Hz].
Qed.

Lemma sort_sorted (l : list A) : StronglySorted precedes (sort compareFn l).
Proof.
  induction l as [|x l IH]; simpl; [constructor|].
  now apply insertSorted_sorted.
Qed.

End Sorted.

End SortFacts.

(** ** The sampler *)

Section SamplerFacts.

Variable MIN_ELEVATION : Q.
Variable satelliteJs : Propagator.
Variable observer : Location.

Local Abbreviation clearsAt := (clears MIN_ELEVATION satelliteJs observer).

(** The callback of the first loop appends the contribution of the
    record, unless the library throws [null] or [undefined]: then the
    handler itself throws. *)
Lemma checkNow_cases (now : Z) (visible : list Visible.t) (sat : Satellite) :
  checkNow MIN_ELEVATION satelliteJs observer now visible sat =
  if throwsNullish satelliteJs observer now sat then Throw messageOfNull
  else Normal (visible ++ contribution MIN_ELEVATION satelliteJs observer now sat).
Proof.
  unfold checkNow, throwsNullish, contribution, clears, entryOf, tryCatch, bind.
  destruct (satelliteJs observer (tle1 sat) (tle2 sat) now) as [[la|]|[e|]];
    cbn; try (now rewrite app_nil_r); try reflexivity.
  destruct (Num.gt (elevationDeg la) MIN_ELEVATION);
    [reflexivity|now rewrite app_nil_r].
Qed.

Lemma forEach_checkNow (now : Z) : forall sats visible,
  forEach (checkNow MIN_ELEVATION satelliteJs observer now) sats visible =
  if existsb (throwsNullish satelliteJs observer now) sats
  then Throw messageOfNull
  else Normal (visible ++
               flat_map (contribution MIN_ELEVATION satelliteJs observer now) sats).
Proof.
  induction sats as [|sat sats IH]; intros visible; cbn [forEach existsb flat_map].
  - now rewrite app_nil_r.
  - rewrite checkNow_cases.
    destruct (throwsNullish satelliteJs observer now sat); [reflexivity|].
    cbn [bind orb]. rewrite IH.
    destruct (existsb _ sats); [reflexivity|]. now rewrite <- app_assoc.
Qed.

(** The body of the second loop never throws: its handler is empty. *)
Lemma checkLater_cases (futureTime minutes : Z) (upcoming : list Pass.t)
      (sat : Satellite) :
  checkLater MIN_ELEVATION satelliteJs observer futureTime minutes upcoming sat =
  Normal
    (match clearsAt sat futureTime with
     | Some _ =>
         if found upcoming sat then (upcoming, false)
         else (upcoming ++ [passOf sat futureTime minutes],
               (5 <=? List.length (upcoming ++ [passOf sat futureTime minutes]))%nat)
     | None => (upcoming, false)
     end).
Proof.
  unfold checkLater, clears, tryCatch, bind.
  destruct (satelliteJs observer (tle1 sat) (tle2 sat) futureTime) as [[la|]|e];
    try reflexivity.
  destruct (Num.gt (elevationDeg la) MIN_ELEVATION); [|reflexivity].
  destruct (found upcoming sat); reflexivity.
Qed.

Lemma found_false_not_in (upcoming : list Pass.t) (sat : Satellite) :
  found upcoming sat = false -> ~ In (name sat) (map Pass.name upcoming).
Proof.
  unfold found. intros Hf Hin. apply in_map_iff in Hin as [p [Hp Hin]].
  assert (H : existsb (fun p => String.eqb (Pass.name p) (name sat)) upcoming = true).
  { apply existsb_exists. exists p. split; [exact Hin|].
    rewrite Hp. apply String.eqb_refl. }
  congruence.
Qed.

(** The scan keeps fewer than five passes while it runs, five at most when
    it stops, and no designation twice. *)
Lemma distinctNames_push (upcoming : list Pass.t) (sat : Satellite) (t m : Z) :
  distinctNames upcoming -> found upcoming sat = false ->
  distinctNames (upcoming ++ [passOf sat t m]).
Proof.
  unfold distinctNames. intros Hnd Hf.
  rewrite map_app. simpl.
  apply (Permutation_NoDup (Permutation_cons_append _ _)).
  constructor; [now apply found_false_not_in|exact Hnd].
Qed.

Lemma forOf_invariant (futureTime minutes : Z) : forall sats upcoming,
  (List.length upcoming < 5)%nat -> distinctNames upcoming ->
  exists upcoming',
    forOf MIN_ELEVATION satelliteJs observer futureTime minutes sats upcoming
      = Normal upcoming' /\
    (List.length upcoming' <= 5)%nat /\ distinctNames upcoming'.
Proof.
  induction sats as [|sat sats IH]; intros upcoming Hlen Hnd; simpl.
  - exists upcoming. repeat split; [lia|exact Hnd].
  - rewrite checkLater_cases. cbn [bind].
    destruct (clearsAt sat futureTime); [|now apply IH].
    destruct (found upcoming sat) eqn:Hf; [now apply IH|].
    cbn [fst snd].
    destruct (Nat.leb_spec 5 (List.length (upcoming ++ [passOf sat futureTime minutes])))
      as [Hfull|Hroom].
    + eexists. split; [reflexivity|]. split.
      * rewrite length_app. simpl. lia.
      * now apply distinctNames_push.
    + apply IH; [exact Hroom|now apply distinctNames_push].
Qed.

Lemma lookAhead_invariant (now : Z) (sats : list Satellite) :
  forall fuel minutes upcoming,
  (List.length upcoming < 5)%nat -> distinctNames upcoming ->
  exists upcoming',
    lookAhead MIN_ELEVATION satelliteJs fuel observer now sats minutes upcoming
      = Normal upcoming' /\
    (List.length upcoming' <= 5)%nat /\ distinctNames upcoming'.
Proof.
  induction fuel as [|fuel IH]; intros minutes upcoming Hlen Hnd;
    cbn [lookAhead].
  - exists upcoming. repeat split; [lia|exact Hnd].
  - destruct (minutes <=? 180)%Z.
    + destruct (forOf_invariant (now + minutes * 60 * 1000) minutes
                                (firstn 100 sats) upcoming Hlen Hnd)
        as [u [Hu [Hulen Hund]]].
      rewrite Hu. cbn [bind].
      destruct (Nat.leb_spec 5 (List.length u)).
      * exists u. auto.
      * now apply IH.
    + exists upcoming. repeat split; [lia|exact Hnd].
Qed.

(** The fuel of [calculatePositions] is enough: any fuel that covers the
    minutes up to 180 gives the same scan. *)
Lemma lookAhead_fuel (now : Z) (sats : list Satellite) :
  forall fuel fuel' minutes upcoming,
  (181 - minutes <= Z.of_nat fuel)%Z -> (181 - minutes <= Z.of_nat fuel')%Z ->
  lookAhead MIN_ELEVATION satelliteJs fuel observer now sats minutes upcoming =
  lookAhead MIN_ELEVATION satelliteJs fuel' observer now sats minutes upcoming.
Proof.
  induction fuel as [|fuel IH]; intros fuel' minutes upcoming Hf Hf'.
  - destruct fuel' as [|fuel']; [reflexivity|]. cbn [lookAhead].
    destruct (Z.leb_spec minutes 180); [lia|reflexivity].
  - destruct fuel' as [|fuel'].
    + cbn [lookAhead]. destruct (Z.leb_spec minutes 180); [lia|reflexivity].
    + cbn [lookAhead]. destruct (Z.leb_spec minutes 180); [|reflexivity].
      destruct (forOf _ _ _ _ _ _ _) as [u|e]; [|reflexivity].
      cbn [bind]. destruct (5 <=? List.length u)%nat; [reflexivity|].
      apply IH; lia.
Qed.

End SamplerFacts.

Section ComparatorFacts.

Lemma gt_zero_false (x : Q) : Num.gt x 0 = false <-> (x <= 0)%Q.
Proof.
  unfold Num.gt. rewrite negb_false_iff. apply Qle_bool_iff.
Qed.

Lemma gt_zero_true (x : Q) : Num.gt x 0 = true <-> (0 < x)%Q.
Proof.
  unfold Num.gt. rewrite negb_true_iff, <- not_true_iff_false, Qle_bool_iff.
  split; [apply Qnot_le_lt|apply Qlt_not_le].
Qed.

Lemma byElevationDesc_le (a b : Visible.t) :
  (byElevationDesc a b <= 0)%Q <-> (Visible.elevation b <= Visible.elevation a)%Z.
Proof.
  unfold byElevationDesc, Num.parseFloat, Qle, Qminus, Qplus, Qopp. simpl. lia.
Qed.

Lemma byMinutesUntil_le (a b : Pass.t) :
  (byMinutesUntil a b <= 0)%Q <-> (Pass.minutesUntil a <= Pass.minutesUntil b)%Z.
Proof.
  unfold byMinutesUntil, inject_Z, Qle, Qminus, Qplus, Qopp. simpl. lia.
Qed.

Lemma sort_byElevationDesc (l : list Visible.t) :
  elevationDescending (sort byElevationDesc l).
Proof.
  apply sort_sorted.
  - intros a b c Hab Hbc. lia.
  - intros a b H. apply gt_zero_false in H. now apply byElevationDesc_le.
  - intros a b H. apply gt_zero_true in H.
    assert (Hn : ~ (Visible.elevation b <= Visible.elevation a)%Z).
    { rewrite <- byElevationDesc_le. now apply Qlt_not_le. }
    lia.
Qed.

Lemma sort_byMinutesUntil (l : list Pass.t) :
  minutesAscending (sort byMinutesUntil l).
Proof.
  apply sort_sorted.
  - intros a b c Hab Hbc. lia.
  - intros a b H. apply gt_zero_false in H. now apply byMinutesUntil_le.
  - intros a b H. apply gt_zero_true in H.
    assert (Hn : ~ (Pass.minutesUntil a <= Pass.minutesUntil b)%Z).
    { rewrite <- byMinutesUntil_le. now apply Qlt_not_le. }
    lia.
Qed.

Lemma sort_byElevationDesc_stable (e : Z) (l : list Visible.t) :
  withElevation e (sort byElevationDesc l) = withElevation e l.
Proof.
  unfold withElevation. apply sort_stable.
  intros x y Hx Hy. apply Z.eqb_eq in Hx, Hy.
  apply gt_zero_false, byElevationDesc_le. lia.
Qed.

End ComparatorFacts.

Section SampleFacts.

Variable MIN_ELEVATION : Q.
Variable satelliteJs : Propagator.

(** With a known observer and a catalog that is not empty the sampler
    reaches [renderApp], unless the propagation of a record throws [null]
    or [undefined]. *)
Lemma calculatePositions_rendered (w : World) (observer : Location) :
  userLocation w = Some observer -> satellites w <> [] ->
  existsb (throwsNullish satelliteJs observer (wallClock w)) (satellites w) = false ->
  exists upcoming,
    calculatePositions MIN_ELEVATION satelliteJs w =
    Normal (Rendered
              (sort byElevationDesc
                 (flat_map (contribution MIN_ELEVATION satelliteJs observer
                                         (wallClock w)) (satellites w)))
              upcoming) /\
    (upcoming <> [] ->
     sort byElevationDesc
       (flat_map (contribution MIN_ELEVATION satelliteJs observer
                               (wallClock w)) (satellites w)) = []) /\
    (List.length upcoming <= 5)%nat /\
    distinctNames upcoming /\
    minutesAscending upcoming.
Proof.
  intros Hloc Hsats Hnull. unfold calculatePositions. rewrite Hloc.
  destruct (satellites w) as [|sat sats] eqn:Hcat; [congruence|].
  cbn [List.length Nat.eqb].
  rewrite forEach_checkNow, Hnull. cbn [bind app].
  set (visible := sort byElevationDesc _).
  destruct visible as [|v visible'] eqn:Hvis; cbn [List.length Nat.eqb].
  - destruct (lookAhead_invariant MIN_ELEVATION satelliteJs observer (wallClock w)
                (sat :: sats) lookAheadFuel 1 [])
      as [u [Hu [Hlen Hnd]]]; [simpl; lia|constructor|].
    rewrite Hu. cbn [bind]. eexists. split; [reflexivity|].
    split; [reflexivity|]. split; [|split].
    + now rewrite (Permutation_length (sort_perm _ byMinutesUntil u)).
    + unfold distinctNames in *.
      eapply Permutation_NoDup; [|exact Hnd].
      apply Permutation_map, Permutation_sym, sort_perm.
    + apply sort_byMinutesUntil.
  - cbn [bind]. exists []. split; [reflexivity|].
    split; [congruence|]. split; [simpl; lia|]. split; constructor.
Qed.

Lemma calculatePositions_waiting (w : World) :
  userLocation w = None \/ satellites w = [] ->
  calculatePositions MIN_ELEVATION satelliteJs w = Normal Waiting.
Proof.
  unfold calculatePositions. intros [H|H]; rewrite H; [reflexivity|].
  now destruct (userLocation w).
Qed.

(** ... and then it throws the [TypeError] of its handler. *)
Lemma calculatePositions_aborts (w : World) (observer : Location) :
  userLocation w = Some observer ->
  existsb (throwsNullish satelliteJs observer (wallClock w)) (satellites w) = true ->
  calculatePositions MIN_ELEVATION satelliteJs w = Throw messageOfNull.
Proof.
  intros Hloc Hnull. unfold calculatePositions. rewrite Hloc.
  destruct (satellites w) as [|sat sats] eqn:Hcat; [discriminate|].
  cbn [List.length Nat.eqb]. rewrite forEach_checkNow, Hnull. reflexivity.
Qed.

Lemma throwsObjects_never_nullish (observer : Location) (t : Z)
      (sats : list Satellite) :
  throwsObjects satelliteJs ->
  existsb (throwsNullish satelliteJs observer t) sats = false.
Proof.
  intros Hlib. induction sats as [|sat sats IH]; [reflexivity|].
  cbn [existsb]. rewrite IH, orb_false_r. unfold throwsNullish.
  pose proof (Hlib observer (tle1 sat) (tle2 sat) t) as H.
  destruct (satelliteJs observer (tle1 sat) (tle2 sat) t) as [r|[e|]];
    [reflexivity|reflexivity|congruence].
Qed.

Lemma calculatePositions_total (w : World) :
  throwsObjects satelliteJs ->
  exists sample, calculatePositions MIN_ELEVATION satelliteJs w = Normal sample.
Proof.
  intros Hlib. destruct (userLocation w) as [observer|] eqn:Hloc.
  - destruct (satellites w) as [|sat sats] eqn:Hcat.
    + exists Waiting. apply calculatePositions_waiting. now right.
    + destruct (calculatePositions_rendered w observer Hloc) as [u [H _]];
        [congruence|now apply throwsObjects_never_nullish|].
      eexists. exact H.
  - exists Waiting. apply calculatePositions_waiting. now left.
Qed.

End SampleFacts.

(** ** The claims on the sampler *)

Lemma rendered_inv (MIN_ELEVATION : Q) (satelliteJs : Propagator) (w : World)
      (visible : list Visible.t) (upcoming : list Pass.t) :
  calculatePositions MIN_ELEVATION satelliteJs w = Normal (Rendered visible upcoming) ->
  exists observer, userLocation w = Some observer /\ satellites w <> [].
Proof.
  intros H. destruct (userLocation w) as [observer|] eqn:Hloc.
  - exists observer. split; [reflexivity|]. intros Hnil.
    rewrite calculatePositions_waiting in H by (now right). discriminate.
  - rewrite calculatePositions_waiting in H by (now left). discriminate.
Qed.

Lemma rendered_no_nullish (MIN_ELEVATION : Q) (satelliteJs : Propagator)
      (w : World) (observer : Location)
      (visible : list Visible.t) (upcoming : list Pass.t) :
  calculatePositions MIN_ELEVATION satelliteJs w = Normal (Rendered visible upcoming) ->
  userLocation w = Some observer ->
  existsb (throwsNullish satelliteJs observer (wallClock w)) (satellites w) = false.
Proof.
  intros H Hloc.
  destruct (existsb _ (satellites w)) eqn:Hnull; [|reflexivity].
  rewrite (calculatePositions_aborts _ _ _ _ Hloc Hnull) in H. discriminate.
Qed.

(** C1, as amended: the sampler takes no instant; it reads the wall clock
    once, by [new Date()]. Its outcome, the visible and the upcoming list
    included, is the same in two worlds that agree on the catalog, the
    observer and that clock reading, whatever the timers and the compass
    heading are. *)
Theorem sample_fixed_by_catalog_observer_clock
        (MIN_ELEVATION : Q) (satelliteJs : Propagator) (w1 w2 : World) :
  satellites w1 = satellites w2 ->
  userLocation w1 = userLocation w2 ->
  wallClock w1 = wallClock w2 ->
  calculatePositions MIN_ELEVATION satelliteJs w1 =
  calculatePositions MIN_ELEVATION satelliteJs w2.
Proof.
  intros Hcat Hloc Hclock. unfold calculatePositions.
  now rewrite Hcat, Hloc, Hclock.
Qed.

Lemma sample_fixed_by_catalog_observer_clock_witness :
  calculatePositions 25 demoJs (worldAt 0 0 mixedCatalog) =
  calculatePositions 25 demoJs (worldAt 0 270 mixedCatalog).
Proof.
  apply (sample_fixed_by_catalog_observer_clock 25 demoJs
           (worldAt 0 0 mixedCatalog) (worldAt 0 270 mixedCatalog));
    reflexivity.
Defined.

(** C1, as stated, fails: with the same catalog and the same observer, a
    call made ten minutes later sees the rising satellite overhead, the
    earlier one announces its pass. *)
Lemma sample_depends_on_wall_clock :
  satellites (worldAt 0 0 [demoSat "A" "rising"]) =
  satellites (worldAt 600000 0 [demoSat "A" "rising"]) /\
  userLocation (worldAt 0 0 [demoSat "A" "rising"]) =
  userLocation (worldAt 600000 0 [demoSat "A" "rising"]) /\
  calculatePositions 25 demoJs (worldAt 0 0 [demoSat "A" "rising"]) <>
  calculatePositions 25 demoJs (worldAt 600000 0 [demoSat "A" "rising"]).
Proof.
  split; [reflexivity|]. split; [reflexivity|].
  vm_compute. discriminate.
Qed.

(** C3: whenever the sampler renders, the upcoming list is empty unless
    the visible list is, has at most 5 entries, has no designation twice
    and is in ascending order of minutes-until. *)
Theorem upcoming_bounded_distinct_ascending
        (MIN_ELEVATION : Q) (satelliteJs : Propagator) (w : World)
        (visible : list Visible.t) (upcoming : list Pass.t) :
  calculatePositions MIN_ELEVATION satelliteJs w = Normal (Rendered visible upcoming) ->
  (upcoming <> [] -> visible = []) /\
  (List.length upcoming <= 5)%nat /\
  NoDup (map Pass.name upcoming) /\
  minutesAscending upcoming.
Proof.
  intros H. destruct (rendered_inv _ _ _ _ _ H) as [observer [Hloc Hcat]].
  destruct (calculatePositions_rendered MIN_ELEVATION satelliteJs w observer Hloc Hcat
              (rendered_no_nullish _ _ _ _ _ _ H Hloc))
    as [u [Hrun [Hempty [Hlen [Hnd Hasc]]]]].
  rewrite Hrun in H. injection H as Hv Hu. subst. auto.
Qed.

Lemma upcoming_bounded_distinct_ascending_witness :
  (risingPasses <> [] -> @nil Visible.t = []) /\
  (List.length risingPasses <= 5)%nat /\
  NoDup (map Pass.name risingPasses) /\
  minutesAscending risingPasses.
Proof.
  apply (upcoming_bounded_distinct_ascending 25 demoJs (worldAt 0 0 risingCatalog)).
  vm_compute. reflexivity.
Defined.

(** C4: whenever the sampler renders, the visible list is in descending
    order of elevation, and the entries that show the same elevation stand
    in the order of their records in the catalog. *)
Theorem visible_descending_and_stable
        (MIN_ELEVATION : Q) (satelliteJs : Propagator) (w : World)
        (visible : list Visible.t) (upcoming : list Pass.t) :
  calculatePositions MIN_ELEVATION satelliteJs w = Normal (Rendered visible upcoming) ->
  elevationDescending visible /\
  exists observer,
    userLocation w = Some observer /\
    Permutation visible
      (flat_map (contribution MIN_ELEVATION satelliteJs observer (wallClock w))
                (satellites w)) /\
    forall e,
      withElevation e visible =
      withElevation e
        (flat_map (contribution MIN_ELEVATION satelliteJs observer (wallClock w))
                  (satellites w)).
Proof.
  intros H. destruct (rendered_inv _ _ _ _ _ H) as [observer [Hloc Hcat]].
  destruct (calculatePositions_rendered MIN_ELEVATION satelliteJs w observer Hloc Hcat
              (rendered_no_nullish _ _ _ _ _ _ H Hloc))
    as [u [Hrun _]].
  rewrite Hrun in H. injection H as Hv Hu. subst visible.
  split; [apply sort_byElevationDesc|].
  exists observer. split; [exact Hloc|]. split.
  - apply sort_perm.
  - intros e. apply sort_byElevationDesc_stable.
Qed.

Lemma visible_descending_and_stable_witness :
  elevationDescending
    [ {| Visible.name := "C"; Visible.azimuth := 900;
         Visible.elevation := 400; Visible.distance := 550 |};
      {| Visible.name := "F"; Visible.azimuth := 900;
         Visible.elevation := 400; Visible.distance := 550 |} ] /\
  exists observer,
    userLocation (worldAt 0 0 mixedCatalog) = Some observer /\
    Permutation
      [ {| Visible.name := "C"; Visible.azimuth := 900;
           Visible.elevation := 400; Visible.distance := 550 |};
        {| Visible.name := "F"; Visible.azimuth := 900;
           Visible.elevation := 400; Visible.distance := 550 |} ]
      (flat_map (contribution 25 demoJs observer 0) mixedCatalog) /\
    forall e,
      withElevation e
        [ {| Visible.name := "C"; Visible.azimuth := 900;
             Visible.elevation := 400; Visible.distance := 550 |};
          {| Visible.name := "F"; Visible.azimuth := 900;
             Visible.elevation := 400; Visible.distance := 550 |} ] =
      withElevation e (flat_map (contribution 25 demoJs observer 0) mixedCatalog).
Proof.
  apply (visible_descending_and_stable 25 demoJs (worldAt 0 0 mixedCatalog) _ []).
  vm_compute. reflexivity.
Defined.

(** C5, which the code breaks. The handler of the first loop is there to
    skip the record ("Skip satellites with calculation errors") but logs
    [err.message]: when the library throws [null] for the second of three
    records the handler throws in turn, the pass ends there and nothing is
    rendered, although the first and the third record are overhead. The
    same catalog with a second record for which the library throws an
    [Error] is rendered with the two others listed, and the second loop,
    whose handler is empty, steps over the record that throws [null]. *)
Theorem pass_aborts_when_null_is_thrown :
  calculatePositions 25 demoNullJs
    (worldAt 0 0 [demoSat "C" "overhead"; demoSat "N" "null"; demoSat "F" "overhead"])
  = Throw messageOfNull /\
  calculatePositions 25 demoNullJs
    (worldAt 0 0 [demoSat "C" "overhead"; demoSat "B" "garbled"; demoSat "F" "overhead"])
  = Normal (Rendered
              [ {| Visible.name := "C"; Visible.azimuth := 900;
                   Visible.elevation := 400; Visible.distance := 550 |};
                {| Visible.name := "F"; Visible.azimuth := 900;
                   Visible.elevation := 400; Visible.distance := 550 |} ]
              []) /\
  forOf 25 demoNullJs origin 60000 1
        [demoSat "N" "null"; demoSat "C" "overhead"] []
  = Normal [ {| Pass.name := "C"; Pass.time := 60000; Pass.minutesUntil := 1 |} ].
Proof.
  split; [vm_compute; reflexivity|].
  split; vm_compute; reflexivity.
Qed.

(** C9, as amended: with an empty catalog, and just as well with no
    observer yet, the sampler returns at its guard without throwing; it
    builds no list and does not call [renderApp]. *)
Theorem empty_catalog_waits
        (MIN_ELEVATION : Q) (satelliteJs : Propagator) (w : World) :
  satellites w = [] ->
  calculatePositions MIN_ELEVATION satelliteJs w = Normal Waiting.
Proof.
  intros H. apply calculatePositions_waiting. now right.
Qed.

Lemma empty_catalog_waits_witness :
  calculatePositions 25 demoJs (worldAt 0 0 []) = Normal Waiting.
Proof.
  apply (empty_catalog_waits 25 demoJs (worldAt 0 0 [])). reflexivity.
Defined.

(** C9, as stated, fails: for the observer at (0, 0, 0) and the empty
    catalog the sampler does not hand over two empty lists, which is what
    it does for a catalog whose only record has no valid position. *)
Lemma empty_catalog_renders_nothing :
  calculatePositions 25 demoJs (worldAt 0 0 []) <> Normal (Rendered [] []) /\
  calculatePositions 25 demoJs (worldAt 0 0 [demoSat "D" "decayed"]) =
  Normal (Rendered [] []).
Proof.
  split; [vm_compute; discriminate|vm_compute; reflexivity].
Qed.

(** ** Compass labels *)

Section CompassFacts.

Local Open Scope Q_scope.

Lemma Qfloor_between (x : Q) (k : Z) :
  inject_Z k <= x -> x < inject_Z (k + 1) -> Qfloor x = k.
Proof.
  intros Hlo Hhi.
  assert (H1 : (k <= Qfloor x)%Z).
  { rewrite <- (Qfloor_Z k). now apply Qfloor_resp_le. }
  assert (H2 : (Qfloor x < k + 1)%Z).
  { rewrite Zlt_Qlt. eapply Qle_lt_trans; [apply Qfloor_le|exact Hhi]. }
  lia.
Qed.

Lemma sixteenth_scaled (azimuth : Q) : azimuth / (45 # 2) == azimuth * (2 # 45).
Proof. field. Qed.

(** [Math.round] of the azimuth over 22.5 is [k] on the sector centred on
    [22.5 * k], lower bound included, upper bound excluded. *)
Lemma round_sector (azimuth : Q) (k : Z) :
  (45 # 2) * inject_Z k - (45 # 4) <= azimuth ->
  azimuth < (45 # 2) * inject_Z k + (45 # 4) ->
  Num.Math_round (azimuth / (45 # 2)) = k.
Proof.
  intros Hlo Hhi. unfold Num.Math_round. apply Qfloor_between.
  - rewrite sixteenth_scaled. Lqa.lra.
  - rewrite inject_Z_plus, sixteenth_scaled. change (inject_Z 1) with 1. Lqa.lra.
Qed.

Lemma round_nonneg (azimuth : Q) :
  0 <= azimuth -> (0 <= Num.Math_round (azimuth / (45 # 2)))%Z.
Proof.
  intros H. unfold Num.Math_round.
  rewrite <- (Qfloor_Z 0). apply Qfloor_resp_le.
  rewrite sixteenth_scaled. change (inject_Z 0) with 0. Lqa.lra.
Qed.

Lemma directions_defined (i : Z) :
  (0 <= i < 16)%Z ->
  exists label, nth_error directions (Z.to_nat i) = Some label /\ In label directions.
Proof.
  intros Hi.
  destruct (nth_error directions (Z.to_nat i)) as [label|] eqn:Hnth.
  - exists label. split; [reflexivity|]. eapply nth_error_In, Hnth.
  - apply nth_error_None in Hnth. simpl in Hnth. lia.
Qed.

End CompassFacts.

(** C2, as amended: for an azimuth that is not negative the label is the
    entry of the 16 labels at index [Math.round(azimuth / 22.5)] modulo 16,
    where [Math.round] is the nearest integer, the larger one half-way. So
    0 gives "N", every azimuth from 348.75 to 360 and every azimuth from 0
    up to but not including 11.25 gives "N", and 90 gives "E". *)
Theorem compass_label_of_sector (azimuth : Q) :
  (0 <= azimuth)%Q ->
  (exists label,
     getCompassDirection azimuth = Some label /\
     In label directions /\
     nth_error directions
       (Z.to_nat (Num.Math_round (azimuth / (45 # 2)) mod 16)) = Some label) /\
  (inject_Z (Num.Math_round (azimuth / (45 # 2))) - (1 # 2) <= azimuth / (45 # 2)
   /\ azimuth / (45 # 2) < inject_Z (Num.Math_round (azimuth / (45 # 2))) + (1 # 2))%Q /\
  (azimuth == 0 -> getCompassDirection azimuth = Some "N")%Q /\
  (azimuth < 1125 # 100 -> getCompassDirection azimuth = Some "N")%Q /\
  (34875 # 100 <= azimuth -> azimuth <= 360 ->
   getCompassDirection azimuth = Some "N")%Q /\
  (azimuth == 90 -> getCompassDirection azimuth = Some "E")%Q.
Proof.
  intros Hpos.
  assert (Hsector : forall k label,
             ((45 # 2) * inject_Z k - (45 # 4) <= azimuth)%Q ->
             (azimuth < (45 # 2) * inject_Z k + (45 # 4))%Q ->
             (if (Z.rem k 16 <? 0)%Z then None
              else nth_error directions (Z.to_nat (Z.rem k 16))) = Some label ->
             getCompassDirection azimuth = Some label).
  { intros k label Hlo Hhi Hk. unfold getCompassDirection.
    now rewrite (round_sector azimuth k Hlo Hhi). }
  split; [|split; [|split; [|split; [|split]]]].
  - pose proof (round_nonneg azimuth Hpos) as Hr.
    unfold getCompassDirection.
    rewrite Z.rem_mod_nonneg by lia.
    assert (Hi : (0 <= Num.Math_round (azimuth / (45 # 2)) mod 16 < 16)%Z)
      by (apply Z.mod_pos_bound; lia).
    destruct (directions_defined _ Hi) as [label [Hnth Hin]].
    exists label. destruct (Z.ltb_spec (Num.Math_round (azimuth / (45 # 2)) mod 16) 0);
      [lia|auto].
  - unfold Num.Math_round. split.
    + pose proof (Qfloor_le (azimuth / (45 # 2) + (1 # 2))) as H. Lqa.lra.
    + pose proof (Qlt_floor (azimuth / (45 # 2) + (1 # 2))) as H.
      rewrite inject_Z_plus in H. change (inject_Z 1) with 1%Q in H. Lqa.lra.
  - intros H0. apply (Hsector 0%Z); [| |reflexivity]; change (inject_Z 0) with 0%Q; Lqa.lra.
  - intros H. apply (Hsector 0%Z); [| |reflexivity]; change (inject_Z 0) with 0%Q; Lqa.lra.
  - intros Hlo Hhi. apply (Hsector 16%Z); [| |reflexivity];
      change (inject_Z 16) with 16%Q; Lqa.lra.
  - intros H90. apply (Hsector 4%Z); [| |reflexivity];
      change (inject_Z 4) with 4%Q; Lqa.lra.
Qed.

Lemma compass_label_of_sector_witness :
  getCompassDirection 350 = Some "N" /\ getCompassDirection 90 = Some "E".
Proof.
  destruct (compass_label_of_sector 350) as [_ [_ [_ [_ [Hwrap _]]]]];
    [discriminate|].
  destruct (compass_label_of_sector 90) as [_ [_ [_ [_ [_ HE]]]]];
    [discriminate|].
  split; [apply Hwrap; discriminate|apply HE; reflexivity].
Defined.

(** Below zero the remainder is negative and no label is read. *)
Example compass_label_below_zero : getCompassDirection (-30) = None.
Proof. vm_compute. reflexivity. Qed.

(** C2, as stated, fails at the upper end of the second range: 11.25 over
    22.5 is one half, which [Math.round] takes up to 1, the index of
    "NNE". *)
Lemma compass_label_at_eleven_and_a_quarter :
  getCompassDirection (1125 # 100) = Some "NNE" /\
  getCompassDirection (1125 # 100) <> Some "N".
Proof.
  split; [vm_compute; reflexivity|vm_compute; discriminate].
Qed.

(** ** The sky map *)

Section SkyMapFacts.

Import SkyMap.
Local Open Scope R_scope.

(** A point at [r] from the centre in any direction is at [|r|]. *)
Lemma polar_distance (c r theta : R) :
  sqrt ((c + r * cos theta - c) * (c + r * cos theta - c) +
        (c + r * sin theta - c) * (c + r * sin theta - c)) = Rabs r.
Proof.
  replace ((c + r * cos theta - c) * (c + r * cos theta - c) +
           (c + r * sin theta - c) * (c + r * sin theta - c))
    with (Rsqr r * (Rsqr (sin theta) + Rsqr (cos theta)))
    by (unfold Rsqr; ring).
  rewrite sin2_cos2, Rmult_1_r. apply sqrt_Rsqr_abs.
Qed.

Lemma fromCenter_plot (size azimuth elevation : R) :
  fromCenter size (plot size azimuth elevation) =
  Rabs (radius size * (1 - elevation / 90)).
Proof.
  unfold fromCenter, plot. cbn [fst snd]. apply polar_distance.
Qed.

End SkyMapFacts.

(** C8: for every azimuth and every size of the map whose radius
    [size / 2 - 20] is not negative, a satellite is drawn at
    [radius * (1 - elevation / 90)] from the centre for an elevation from 0
    to 90: at the centre itself for elevation 90, at the radius for
    elevation 0. *)
Theorem zenith_at_center_horizon_at_radius (size azimuth : R) :
  (40 <= size)%R ->
  SkyMap.plot size azimuth 90 = (SkyMap.center size, SkyMap.center size) /\
  SkyMap.fromCenter size (SkyMap.plot size azimuth 0) = SkyMap.radius size /\
  (forall elevation, (0 <= elevation <= 90)%R ->
     SkyMap.fromCenter size (SkyMap.plot size azimuth elevation) =
     (SkyMap.radius size * (1 - elevation / 90))%R).
Proof.
  intros Hsize.
  assert (Hradius : (0 <= SkyMap.radius size)%R) by (unfold SkyMap.radius; Lra.lra).
  split; [|split].
  - unfold SkyMap.plot.
    replace (1 - 90 / 90)%R with 0%R by field.
    f_equal; ring.
  - rewrite fromCenter_plot.
    replace (SkyMap.radius size * (1 - 0 / 90))%R with (SkyMap.radius size) by field.
    now apply Rabs_right, Rle_ge.
  - intros elevation [Hlo Hhi]. rewrite fromCenter_plot.
    apply Rabs_right, Rle_ge, Rmult_le_pos; [exact Hradius|Lra.lra].
Qed.

Lemma zenith_at_center_horizon_at_radius_witness :
  SkyMap.plot SkyMap.size 45 90 = (SkyMap.center SkyMap.size, SkyMap.center SkyMap.size) /\
  SkyMap.fromCenter SkyMap.size (SkyMap.plot SkyMap.size 45 0) = SkyMap.radius SkyMap.size.
Proof.
  destruct (zenith_at_center_horizon_at_radius SkyMap.size 45) as [Hzenith [Hhorizon _]].
  - unfold SkyMap.size. Lra.lra.
  - split; [exact Hzenith|exact Hhorizon].
Defined.

(** * Further properties *)

(** ** Compass labels: every sector, the period and the other side of zero *)

Section CompassSectors.

Local Open Scope Q_scope.

Lemma round_shift_turn (azimuth : Q) :
  Num.Math_round ((azimuth + 360) / (45 # 2)) =
  (Num.Math_round (azimuth / (45 # 2)) + 16)%Z.
Proof.
  unfold Num.Math_round.
  pose proof (Qfloor_le (azimuth / (45 # 2) + (1 # 2))) as Hlo.
  pose proof (Qlt_floor (azimuth / (45 # 2) + (1 # 2))) as Hhi.
  rewrite inject_Z_plus in Hhi. change (inject_Z 1) with 1 in Hhi.
  assert (Hturn : (azimuth + 360) / (45 # 2) == azimuth / (45 # 2) + 16)
    by field.
  set (r := Qfloor (azimuth / (45 # 2) + (1 # 2))) in *.
  apply Qfloor_between.
  - rewrite inject_Z_plus. change (inject_Z 16) with 16. Lqa.lra.
  - rewrite !inject_Z_plus. change (inject_Z 16) with 16. change (inject_Z 1) with 1.
    Lqa.lra.
Qed.

Lemma round_from_minus_sector (azimuth : Q) :
  - (45 # 4) <= azimuth -> (0 <= Num.Math_round (azimuth / (45 # 2)))%Z.
Proof.
  intros H. unfold Num.Math_round.
  rewrite <- (Qfloor_Z 0). apply Qfloor_resp_le.
  rewrite sixteenth_scaled. change (inject_Z 0) with 0. Lqa.lra.
Qed.

End CompassSectors.

(** X1: each of the 16 labels owns the sector of 22.5 degrees centred on
    its bearing, lower bound included and upper bound excluded: an azimuth
    in the sector of index [k] is given the [k]-th label. *)
Theorem compass_label_of_each_sector (azimuth : Q) (k : Z) :
  (0 <= k < 16)%Z ->
  ((45 # 2) * inject_Z k - (45 # 4) <= azimuth)%Q ->
  (azimuth < (45 # 2) * inject_Z k + (45 # 4))%Q ->
  getCompassDirection azimuth = nth_error directions (Z.to_nat k).
Proof.
  intros Hk Hlo Hhi. unfold getCompassDirection.
  rewrite (round_sector azimuth k Hlo Hhi).
  rewrite Z.rem_small by lia.
  destruct (Z.ltb_spec k 0); [lia|reflexivity].
Qed.

Lemma compass_label_of_each_sector_witness :
  getCompassDirection 200 = Some "SSW".
Proof.
  apply (compass_label_of_each_sector 200 9); [lia|discriminate|reflexivity].
Defined.

(** X2: two azimuths a full turn apart, the lower one -11.25 degrees at
    least, have the same label. *)
Theorem compass_label_full_turn (azimuth turned : Q) :
  (- (45 # 4) <= azimuth)%Q ->
  (turned == azimuth + 360)%Q ->
  getCompassDirection turned = getCompassDirection azimuth.
Proof.
  intros H Hturn. pose proof (round_from_minus_sector azimuth H) as Hr.
  assert (Hround : Num.Math_round (turned / (45 # 2)) =
                   (Num.Math_round (azimuth / (45 # 2)) + 16)%Z).
  { rewrite <- round_shift_turn. unfold Num.Math_round.
    apply Qfloor_comp. now rewrite Hturn. }
  unfold getCompassDirection. rewrite Hround.
  rewrite !Z.rem_mod_nonneg by lia.
  replace ((Num.Math_round (azimuth / (45 # 2)) + 16) mod 16)%Z
    with (Num.Math_round (azimuth / (45 # 2)) mod 16)%Z; [reflexivity|].
  now rewrite <- (Z.mod_add (Num.Math_round (azimuth / (45 # 2))) 1 16) by lia.
Qed.

Lemma compass_label_full_turn_witness :
  getCompassDirection 460 = getCompassDirection 100.
Proof.
  apply (compass_label_full_turn 100 460); [discriminate|reflexivity].
Defined.

(** X3: the labels do not wrap below zero: an azimuth from -348.75 up to
    but not including -11.25 reads outside the array and has no label. *)
Theorem compass_label_undefined_below_zero (azimuth : Q) :
  (- (34875 # 100) <= azimuth)%Q -> (azimuth < - (45 # 4))%Q ->
  getCompassDirection azimuth = None.
Proof.
  intros Hlo Hhi.
  assert (Hr : (-15 <= Num.Math_round (azimuth / (45 # 2)) < 0)%Z).
  { unfold Num.Math_round. split.
    - rewrite <- (Qfloor_Z (-15)). apply Qfloor_resp_le.
      rewrite sixteenth_scaled. change (inject_Z (-15)) with (-15)%Q. Lqa.lra.
    - assert (H : (Qfloor (azimuth / (45 # 2) + (1 # 2)) < 0)%Z); [|lia].
      rewrite Zlt_Qlt. eapply Qle_lt_trans; [apply Qfloor_le|].
      rewrite sixteenth_scaled. change (inject_Z 0) with 0%Q. Lqa.lra. }
  unfold getCompassDirection.
  assert (Hrem : (Z.rem (Num.Math_round (azimuth / (45 # 2))) 16 < 0)%Z).
  { rewrite <- (Z.opp_involutive (Num.Math_round (azimuth / (45 # 2)))).
    rewrite Z.rem_opp_l by lia. rewrite Z.rem_small by lia. lia. }
  destruct (Z.ltb_spec (Z.rem (Num.Math_round (azimuth / (45 # 2))) 16) 0);
    [reflexivity|lia].
Qed.

Lemma compass_label_undefined_below_zero_witness :
  getCompassDirection (-90) = None.
Proof.
  apply (compass_label_undefined_below_zero (-90)); [discriminate|reflexivity].
Defined.

(** ** The sampler: what is listed and what is announced *)

Section VisibleFacts.

Variable MIN_ELEVATION : Q.
Variable satelliteJs : Propagator.

Lemma clears_Some (observer : Location) (sat : Satellite) (t : Z)
      (lookAngles : LookAngles) :
  clears MIN_ELEVATION satelliteJs observer sat t = Some lookAngles ->
  satelliteJs observer (tle1 sat) (tle2 sat) t = Normal (Some lookAngles) /\
  (MIN_ELEVATION < elevationDeg lookAngles)%Q.
Proof.
  unfold clears.
  destruct (satelliteJs observer (tle1 sat) (tle2 sat) t) as [[la|]|e];
    try discriminate.
  destruct (Num.gt (elevationDeg la) MIN_ELEVATION) eqn:Hgt; [|discriminate].
  intros H. injection H as ->. split; [reflexivity|].
  unfold Num.gt in Hgt. apply negb_true_iff in Hgt.
  apply Qnot_le_lt. intros Hle. apply Qle_bool_iff in Hle. congruence.
Qed.

Lemma in_contributions (observer : Location) (now : Z) (sats : list Satellite)
      (v : Visible.t) :
  In v (flat_map (contribution MIN_ELEVATION satelliteJs observer now) sats) <->
  exists sat lookAngles,
    In sat sats /\
    clears MIN_ELEVATION satelliteJs observer sat now = Some lookAngles /\
    v = entryOf sat lookAngles.
Proof.
  rewrite in_flat_map. unfold contribution. split.
  - intros [sat [Hin Hv]].
    destruct (clears MIN_ELEVATION satelliteJs observer sat now) as [la|] eqn:Hc;
      [|contradiction].
    destruct Hv as [<-|[]]. eauto.
  - intros [sat [la [Hin [Hc ->]]]]. exists sat. split; [exact Hin|].
    rewrite Hc. now left.
Qed.

Lemma contributions_length (observer : Location) (now : Z) (sats : list Satellite) :
  (List.length (flat_map (contribution MIN_ELEVATION satelliteJs observer now) sats)
   <= List.length sats)%nat.
Proof.
  induction sats as [|sat sats IH]; [apply le_n|].
  cbn [flat_map]. rewrite length_app. unfold contribution at 1.
  destruct (clears MIN_ELEVATION satelliteJs observer sat now); simpl; lia.
Qed.

(** What [renderApp] receives as its first argument. *)
Lemma rendered_visible (w : World) (visible : list Visible.t)
      (upcoming : list Pass.t) :
  calculatePositions MIN_ELEVATION satelliteJs w = Normal (Rendered visible upcoming) ->
  exists observer,
    userLocation w = Some observer /\
    satellites w <> [] /\
    visible =
    sort byElevationDesc
      (flat_map (contribution MIN_ELEVATION satelliteJs observer (wallClock w))
                (satellites w)).
Proof.
  intros H. destruct (rendered_inv _ _ _ _ _ H) as [observer [Hloc Hcat]].
  exists observer. split; [exact Hloc|]. split; [exact Hcat|].
  destruct (calculatePositions_rendered MIN_ELEVATION satelliteJs w observer Hloc Hcat
              (rendered_no_nullish _ _ _ _ _ _ H Hloc))
    as [u [Hrun _]].
  rewrite Hrun in H. now injection H as -> _.
Qed.

End VisibleFacts.

Section Rounding.

Local Open Scope Q_scope.

Lemma toFixed1_near (x : Q) :
  0 <= x -> x - (1 # 20) < Num.parseFloat (Num.toFixed1 x).
Proof.
  intros Hx. unfold Num.toFixed1.
  assert (Hb : Qle_bool 0 x = true) by now apply Qle_bool_iff.
  rewrite Hb. unfold Num.Math_round, Num.parseFloat.
  pose proof (Qlt_floor (x * 10 + (1 # 2))) as H.
  rewrite inject_Z_plus in H. change (inject_Z 1) with 1 in H.
  set (n := Qfloor (x * 10 + (1 # 2))) in *.
  assert (Hn : n # 10 == inject_Z n * (1 # 10)).
  { unfold Qeq, inject_Z, Qmult. simpl. lia. }
  rewrite Hn. Lqa.lra.
Qed.

End Rounding.

(** X4: no listed satellite is shown below the threshold: the elevation
    written on an entry is more than the threshold less one twentieth of a
    degree, so at a whole threshold of [m] degrees (25, or 0 in the earlier
    script) every entry shows [m.0] at least. *)
Theorem visible_shown_above_threshold
        (MIN_ELEVATION : Q) (satelliteJs : Propagator) (w : World)
        (visible : list Visible.t) (upcoming : list Pass.t) (m : Z) :
  calculatePositions MIN_ELEVATION satelliteJs w = Normal (Rendered visible upcoming) ->
  (0 <= m)%Z -> (MIN_ELEVATION == inject_Z m)%Q ->
  Forall (fun v => (MIN_ELEVATION - (1 # 20) < Num.parseFloat (Visible.elevation v))%Q
                   /\ (10 * m <= Visible.elevation v)%Z) visible.
Proof.
  intros H Hm HMIN. destruct (rendered_visible _ _ _ _ _ H) as [observer [_ [_ ->]]].
  apply (Permutation_Forall (Permutation_sym (sort_perm _ byElevationDesc _))).
  apply Forall_forall. intros v Hv.
  apply in_contributions in Hv as [sat [la [_ [Hc ->]]]].
  apply clears_Some in Hc as [_ Hgt]. cbn [entryOf Visible.elevation].
  assert (Hpos : (0 <= elevationDeg la)%Q).
  { rewrite HMIN in Hgt. apply Qlt_le_weak. eapply Qle_lt_trans; [|exact Hgt].
    change (inject_Z 0 <= inject_Z m)%Q. rewrite <- Zle_Qle. exact Hm. }
  pose proof (toFixed1_near (elevationDeg la) Hpos) as Hnear.
  split; [Lqa.lra|].
  assert (Hq : (inject_Z (10 * m) - (1 # 2) < inject_Z (Num.toFixed1 (elevationDeg la)))%Q).
  { unfold Num.parseFloat in Hnear.
    assert (Hn : (Num.toFixed1 (elevationDeg la) # 10
                  == inject_Z (Num.toFixed1 (elevationDeg la)) * (1 # 10))%Q).
    { unfold Qeq, inject_Z, Qmult. simpl. lia. }
    rewrite Hn in Hnear. rewrite inject_Z_mult. change (inject_Z 10) with 10%Q.
    Lqa.lra. }
  destruct (Z_lt_le_dec (Num.toFixed1 (elevationDeg la)) (10 * m)) as [Hlt|Hle];
    [|exact Hle].
  exfalso.
  assert (Hle1 : (Num.toFixed1 (elevationDeg la) + 1 <= 10 * m)%Z) by lia.
  rewrite Zle_Qle, inject_Z_plus in Hle1. change (inject_Z 1) with 1%Q in Hle1.
  Lqa.lra.
Qed.

Lemma visible_shown_above_threshold_witness :
  Forall (fun v => (25 - (1 # 20) < Num.parseFloat (Visible.elevation v))%Q
                   /\ (10 * 25 <= Visible.elevation v)%Z)
         [ {| Visible.name := "A"; Visible.azimuth := 123;
              Visible.elevation := 301; Visible.distance := 1200 |} ].
Proof.
  apply (visible_shown_above_threshold 25 demoJs
           (worldAt 600000 0 [demoSat "A" "rising"]) _ [] 25).
  - vm_compute. reflexivity.
  - lia.
  - reflexivity.
Defined.

(** X5: the satellites listed are the records of the catalog that
    propagate to an elevation above the threshold at the clock reading,
    each with the figures of its own propagation; none of them is left
    out, and the list is no longer than the catalog. *)
Theorem visible_are_the_records_above
        (MIN_ELEVATION : Q) (satelliteJs : Propagator) (w : World)
        (visible : list Visible.t) (upcoming : list Pass.t) :
  calculatePositions MIN_ELEVATION satelliteJs w = Normal (Rendered visible upcoming) ->
  exists observer,
    userLocation w = Some observer /\
    (forall v,
       In v visible <->
       exists sat lookAngles,
         In sat (satellites w) /\
         satelliteJs observer (tle1 sat) (tle2 sat) (wallClock w)
           = Normal (Some lookAngles) /\
         (MIN_ELEVATION < elevationDeg lookAngles)%Q /\
         v = entryOf sat lookAngles) /\
    (List.length visible <= List.length (satellites w))%nat.
Proof.
  intros H. destruct (rendered_visible _ _ _ _ _ H) as [observer [Hloc [_ ->]]].
  exists observer. split; [exact Hloc|]. split.
  - intros v. split.
    + intros Hv.
      apply (Permutation_in _ (sort_perm _ byElevationDesc _)) in Hv.
      apply in_contributions in Hv as [sat [la [Hin [Hc ->]]]].
      apply clears_Some in Hc as [Hjs Hgt]. exists sat, la. auto.
    + intros [sat [la [Hin [Hjs [Hgt ->]]]]].
      apply (Permutation_in _ (Permutation_sym (sort_perm _ byElevationDesc _))).
      apply in_contributions. exists sat, la. split; [exact Hin|].
      split; [|reflexivity]. unfold clears. rewrite Hjs.
      assert (Hb : Num.gt (elevationDeg la) MIN_ELEVATION = true).
      { unfold Num.gt. apply negb_true_iff. apply not_true_iff_false.
        intros Hle. apply Qle_bool_iff in Hle. now apply Qlt_not_le in Hgt. }
      now rewrite Hb.
  - rewrite (Permutation_length (sort_perm _ byElevationDesc _)).
    apply contributions_length.
Qed.

Lemma visible_are_the_records_above_witness :
  exists observer,
    userLocation (worldAt 600000 0 [demoSat "A" "rising"]) = Some observer /\
    (forall v,
       In v [ {| Visible.name := "A"; Visible.azimuth := 123;
                 Visible.elevation := 301; Visible.distance := 1200 |} ] <->
       exists sat lookAngles,
         In sat (satellites (worldAt 600000 0 [demoSat "A" "rising"])) /\
         demoJs observer (tle1 sat) (tle2 sat)
                (wallClock (worldAt 600000 0 [demoSat "A" "rising"]))
           = Normal (Some lookAngles) /\
         (25 < elevationDeg lookAngles)%Q /\
         v = entryOf sat lookAngles) /\
    (List.length [ {| Visible.name := "A"; Visible.azimuth := 123;
                      Visible.elevation := 301; Visible.distance := 1200 |} ]
     <= List.length (satellites (worldAt 600000 0 [demoSat "A" "rising"])))%nat.
Proof.
  apply (visible_are_the_records_above 25 demoJs
           (worldAt 600000 0 [demoSat "A" "rising"]) _ []).
  vm_compute. reflexivity.
Defined.

Section ScanFacts.

Variable MIN_ELEVATION : Q.
Variable satelliteJs : Propagator.
Variable observer : Location.
Variable now : Z.
Variable prefix : list Satellite.

Local Abbreviation aboveAt := (above MIN_ELEVATION satelliteJs observer).
Local Abbreviation sound := (passSound MIN_ELEVATION satelliteJs observer now prefix).
Local Abbreviation earliest :=
  (passEarliest MIN_ELEVATION satelliteJs observer now prefix).
Local Abbreviation covered :=
  (coveredBefore MIN_ELEVATION satelliteJs observer now prefix).

Lemma found_true_announced (upcoming : list Pass.t) (sat : Satellite) :
  found upcoming sat = true -> announced upcoming (name sat).
Proof.
  unfold found, announced. intros H.
  apply existsb_exists in H as [p [Hin Hp]]. apply String.eqb_eq in Hp.
  apply in_map_iff. exists p. auto.
Qed.

Lemma announced_push (upcoming : list Pass.t) (p : Pass.t) (n : string) :
  announced upcoming n -> announced (upcoming ++ [p]) n.
Proof.
  unfold announced. rewrite map_app, in_app_iff. auto.
Qed.

(** One round of the inner loop, from the records still to visit. *)
Lemma forOf_scan (minutes : Z) :
  scanned minutes ->
  forall rest visited upcoming,
  prefix = visited ++ rest ->
  (List.length upcoming < 5)%nat ->
  Forall sound upcoming -> Forall earliest upcoming ->
  covered minutes upcoming ->
  (forall sat, In sat visited -> aboveAt sat (instantAt now minutes) ->
               announced upcoming (name sat)) ->
  exists upcoming',
    forOf MIN_ELEVATION satelliteJs observer (instantAt now minutes) minutes
          rest upcoming = Normal upcoming' /\
    Forall sound upcoming' /\ Forall earliest upcoming' /\
    (List.length upcoming' <= 5)%nat /\
    ((List.length upcoming' < 5)%nat ->
     covered minutes upcoming' /\
     forall sat, In sat prefix -> aboveAt sat (instantAt now minutes) ->
                 announced upcoming' (name sat)).
Proof.
  intros Hscan. induction rest as [|sat rest IH];
    intros visited upcoming Hprefix Hlen Hsound Hearly Hcov Hvis.
  - exists upcoming. cbn [forOf]. rewrite app_nil_r in Hprefix. subst visited.
    repeat split; auto. lia.
  - cbn [forOf]. rewrite checkLater_cases. cbn [bind].
    assert (Hnext : prefix = (visited ++ [sat]) ++ rest)
      by (now rewrite <- app_assoc).
    assert (Hin : In sat prefix)
      by (rewrite Hprefix; apply in_or_app; right; now left).
    destruct (clears MIN_ELEVATION satelliteJs observer sat (instantAt now minutes))
      as [la|] eqn:Hc.
    + destruct (found upcoming sat) eqn:Hf; cbn [fst snd].
      * apply (IH (visited ++ [sat])); auto.
        intros s Hs Hab. apply in_app_or in Hs as [Hs|[<-|[]]]; auto.
        now apply found_true_announced.
      * set (p := passOf sat (instantAt now minutes) minutes).
        assert (Hsound' : Forall sound (upcoming ++ [p])).
        { apply Forall_app. split; [exact Hsound|]. constructor; [|constructor].
          split; [exact Hscan|]. split; [reflexivity|].
          exists sat. split; [exact Hin|]. split; [reflexivity|].
          unfold above. cbn [p passOf Pass.time]. congruence. }
        assert (Hearly' : Forall earliest (upcoming ++ [p])).
        { apply Forall_app. split; [exact Hearly|]. constructor; [|constructor].
          intros s m Hs Hname Hm Hlt Hab. cbn [p passOf Pass.name Pass.minutesUntil] in *.
          apply (found_false_not_in _ _ Hf). rewrite <- Hname.
          exact (Hcov s m Hs Hm Hlt Hab). }
        assert (Hcov' : covered minutes (upcoming ++ [p])).
        { intros s m Hs Hm Hlt Hab. apply announced_push. eauto. }
        assert (Hvis' : forall s, In s (visited ++ [sat]) ->
                          aboveAt s (instantAt now minutes) ->
                          announced (upcoming ++ [p]) (name s)).
        { intros s Hs Hab. apply in_app_or in Hs as [Hs|[<-|[]]].
          - apply announced_push. auto.
          - unfold announced. rewrite map_app. apply in_or_app. right. now left. }
        destruct (Nat.leb_spec 5 (List.length (upcoming ++ [p]))) as [Hfull|Hroom].
        -- exists (upcoming ++ [p]). split; [reflexivity|].
           split; [exact Hsound'|]. split; [exact Hearly'|].
           split; [rewrite length_app; simpl; lia|]. intros Hlt. lia.
        -- apply (IH (visited ++ [sat])); auto.
    + cbn [fst snd]. apply (IH (visited ++ [sat])); auto.
      intros s Hs Hab. apply in_app_or in Hs as [Hs|[<-|[]]]; auto.
      unfold above in Hab. congruence.
Qed.

End ScanFacts.

Section LookAheadFacts.

Variable MIN_ELEVATION : Q.
Variable satelliteJs : Propagator.
Variable observer : Location.
Variable now : Z.
Variable sats : list Satellite.

Local Abbreviation soundIn :=
  (passSound MIN_ELEVATION satelliteJs observer now (firstn 100 sats)).
Local Abbreviation earliestIn :=
  (passEarliest MIN_ELEVATION satelliteJs observer now (firstn 100 sats)).
Local Abbreviation coveredIn :=
  (coveredBefore MIN_ELEVATION satelliteJs observer now (firstn 100 sats)).

Lemma lookAhead_scan : forall fuel minutes upcoming,
  (181 - minutes <= Z.of_nat fuel)%Z ->
  (1 <= minutes)%Z -> Z.odd minutes = true ->
  (List.length upcoming < 5)%nat ->
  Forall soundIn upcoming -> Forall earliestIn upcoming ->
  coveredIn minutes upcoming ->
  exists upcoming',
    lookAhead MIN_ELEVATION satelliteJs fuel observer now sats minutes upcoming
      = Normal upcoming' /\
    Forall soundIn upcoming' /\ Forall earliestIn upcoming' /\
    ((List.length upcoming' < 5)%nat -> coveredIn 181 upcoming').
Proof.
  assert (Hdone : forall minutes upcoming,
             (180 < minutes)%Z -> coveredIn minutes upcoming ->
             coveredIn 181 upcoming).
  { intros minutes upcoming Hm Hcov sat m Hin Hscan Hlt. apply Hcov; auto.
    destruct Hscan as [[_ H180] _]. lia. }
  induction fuel as [|fuel IH];
    intros minutes upcoming Hfuel Hpos Hodd Hlen Hsound Hearly Hcov;
    cbn [lookAhead].
  - exists upcoming. repeat split; auto. intros _. apply (Hdone minutes); [lia|auto].
  - destruct (Z.leb_spec minutes 180) as [Hle|Hgt].
    + assert (Hscan : scanned minutes) by (split; [lia|exact Hodd]).
      destruct (forOf_scan MIN_ELEVATION satelliteJs observer now (firstn 100 sats)
                  minutes Hscan (firstn 100 sats) [] upcoming eq_refl Hlen
                  Hsound Hearly Hcov)
        as [u [Hu [Hs [He [Hl Hc]]]]]; [intros sat []|].
      fold (instantAt now minutes). rewrite Hu. cbn [bind].
      destruct (Nat.leb_spec 5 (List.length u)) as [Hfull|Hroom].
      * exists u. repeat split; auto. intros Hlt. lia.
      * destruct (Hc Hroom) as [Hbefore Hat].
        apply IH; auto; try lia.
        -- rewrite Z.odd_add, Hodd. reflexivity.
        -- intros sat m Hin Hm Hlt Hab.
           destruct (Z.eq_dec m minutes) as [->|Hne]; [now apply Hat|].
           apply (Hbefore sat m); auto.
           destruct Hm as [_ Hmodd].
           assert (m <> minutes + 1)%Z; [|lia].
           intros ->. rewrite Z.odd_add, Hodd in Hmodd. discriminate.
    + exists upcoming. repeat split; auto. intros _. apply (Hdone minutes); [lia|auto].
Qed.

End LookAheadFacts.

Section UpcomingFacts.

Variable MIN_ELEVATION : Q.
Variable satelliteJs : Propagator.

(** What [renderApp] receives as its second argument. *)
Lemma rendered_upcoming (w : World) (observer : Location)
      (visible : list Visible.t) (upcoming : list Pass.t) :
  calculatePositions MIN_ELEVATION satelliteJs w = Normal (Rendered visible upcoming) ->
  userLocation w = Some observer ->
  (visible <> [] /\ upcoming = []) \/
  (visible = [] /\
   exists found,
     lookAhead MIN_ELEVATION satelliteJs lookAheadFuel observer (wallClock w)
               (satellites w) 1 [] = Normal found /\
     upcoming = sort byMinutesUntil found).
Proof.
  intros H Hloc. unfold calculatePositions in H. rewrite Hloc in H.
  destruct (List.length (satellites w) =? 0)%nat; [discriminate|].
  rewrite forEach_checkNow in H.
  destruct (existsb _ (satellites w)); [discriminate|]. cbn [bind app] in H.
  destruct (sort byElevationDesc _) as [|v rest] eqn:Hvis;
    cbn [List.length Nat.eqb] in H.
  - right.
    destruct (lookAhead _ _ _ _ _ _ _ _) as [u|e] eqn:Hu; [|discriminate].
    cbn [bind] in H. injection H as <- <-. split; [reflexivity|].
    exists u. split; reflexivity.
  - left. cbn [bind] in H. injection H as <- <-. split; [discriminate|reflexivity].
Qed.

End UpcomingFacts.

(** X6: every pass announced is real and is the first one seen: its
    minutes are one of 1, 3, ..., 179, its time is the clock reading plus
    those minutes, one of the first 100 records with its designation is
    above the threshold at that time, and none of them with that
    designation is above the threshold at an earlier instant of the
    scan. *)
Theorem upcoming_sound_and_earliest
        (MIN_ELEVATION : Q) (satelliteJs : Propagator) (w : World)
        (observer : Location)
        (visible : list Visible.t) (upcoming : list Pass.t) :
  calculatePositions MIN_ELEVATION satelliteJs w = Normal (Rendered visible upcoming) ->
  userLocation w = Some observer ->
  Forall (fun p =>
            passSound MIN_ELEVATION satelliteJs observer (wallClock w)
                      (firstn 100 (satellites w)) p /\
            passEarliest MIN_ELEVATION satelliteJs observer (wallClock w)
                         (firstn 100 (satellites w)) p)
         upcoming.
Proof.
  intros H Hloc.
  destruct (rendered_upcoming _ _ _ _ _ _ H Hloc)
    as [[_ ->]|[_ [u [Hu ->]]]]; [constructor|].
  destruct (lookAhead_scan MIN_ELEVATION satelliteJs observer (wallClock w)
              (satellites w) lookAheadFuel 1 [])
    as [u' [Hu' [Hsound [Hearly _]]]];
    try (constructor; fail); try (unfold lookAheadFuel; simpl; lia);
    try reflexivity.
  { intros sat m _ [[H1 _] _] Hlt. lia. }
  rewrite Hu in Hu'. injection Hu' as <-.
  apply (Permutation_Forall (Permutation_sym (sort_perm _ byMinutesUntil u))).
  rewrite Forall_forall in *. auto.
Qed.

Lemma upcoming_sound_and_earliest_witness :
  Forall (fun p =>
            passSound 25 demoJs origin 0 (firstn 100 risingCatalog) p /\
            passEarliest 25 demoJs origin 0 (firstn 100 risingCatalog) p)
         risingPasses.
Proof.
  apply (upcoming_sound_and_earliest 25 demoJs (worldAt 0 0 risingCatalog) origin []).
  - vm_compute. reflexivity.
  - reflexivity.
Defined.

(** X7: the scan misses nothing below its cap: when nothing is overhead
    and fewer than 5 passes are announced, every one of the first 100
    records that is above the threshold at some instant of the scan has
    its designation among the passes. *)
Theorem upcoming_complete_below_cap
        (MIN_ELEVATION : Q) (satelliteJs : Propagator) (w : World)
        (observer : Location) (upcoming : list Pass.t)
        (sat : Satellite) (minutes : Z) :
  calculatePositions MIN_ELEVATION satelliteJs w = Normal (Rendered [] upcoming) ->
  userLocation w = Some observer ->
  (List.length upcoming < 5)%nat ->
  In sat (firstn 100 (satellites w)) -> scanned minutes ->
  above MIN_ELEVATION satelliteJs observer sat (instantAt (wallClock w) minutes) ->
  announced upcoming (name sat).
Proof.
  intros H Hloc Hlen Hin Hscan Hab.
  destruct (rendered_upcoming _ _ _ _ _ _ H Hloc)
    as [[Hne _]|[_ [u [Hu ->]]]]; [congruence|].
  destruct (lookAhead_scan MIN_ELEVATION satelliteJs observer (wallClock w)
              (satellites w) lookAheadFuel 1 [])
    as [u' [Hu' [_ [_ Hcov]]]];
    try (constructor; fail); try (unfold lookAheadFuel; simpl; lia);
    try reflexivity.
  { intros s m _ [[H1 _] _] Hlt. lia. }
  rewrite Hu in Hu'. injection Hu' as <-.
  rewrite (Permutation_length (sort_perm _ byMinutesUntil u)) in Hlen.
  unfold announced.
  apply (Permutation_in _ (Permutation_map Pass.name
                             (Permutation_sym (sort_perm _ byMinutesUntil u)))).
  apply (Hcov Hlen sat minutes Hin Hscan); [|exact Hab].
  destruct Hscan as [[_ H180] _]. lia.
Qed.

Lemma upcoming_complete_below_cap_witness :
  announced [ {| Pass.name := "A"; Pass.time := 660000; Pass.minutesUntil := 11 |} ]
            (name (demoSat "A" "rising")).
Proof.
  apply (upcoming_complete_below_cap 25 demoJs
           (worldAt 0 0 [demoSat "A" "rising"]) origin _ (demoSat "A" "rising") 15).
  - vm_compute. reflexivity.
  - reflexivity.
  - simpl. lia.
  - now left.
  - split; [lia|reflexivity].
  - vm_compute. discriminate.
Defined.

(** X8: raising the threshold only removes entries: with the same world
    and the same library, every satellite listed at the higher threshold
    is listed, with the same figures, at the lower one. *)
Theorem visible_shrinks_with_threshold
        (low high : Q) (satelliteJs : Propagator) (w : World)
        (visibleLow visibleHigh : list Visible.t)
        (upcomingLow upcomingHigh : list Pass.t) :
  (low <= high)%Q ->
  calculatePositions low satelliteJs w = Normal (Rendered visibleLow upcomingLow) ->
  calculatePositions high satelliteJs w = Normal (Rendered visibleHigh upcomingHigh) ->
  incl visibleHigh visibleLow.
Proof.
  intros Hle Hlow Hhigh v Hv.
  destruct (rendered_visible _ _ _ _ _ Hlow) as [observer [Hloc [_ ->]]].
  destruct (rendered_visible _ _ _ _ _ Hhigh) as [observer' [Hloc' [_ ->]]].
  assert (observer' = observer) by congruence. subst observer'.
  apply (Permutation_in _ (sort_perm _ byElevationDesc _)) in Hv.
  apply (Permutation_in _ (Permutation_sym (sort_perm _ byElevationDesc _))).
  apply in_contributions in Hv as [sat [la [Hin [Hc ->]]]].
  apply in_contributions. exists sat, la. split; [exact Hin|].
  split; [|reflexivity].
  apply clears_Some in Hc as [Hjs Hgt]. unfold clears. rewrite Hjs.
  assert (Hb : Num.gt (elevationDeg la) low = true).
  { unfold Num.gt. apply negb_true_iff, not_true_iff_false.
    intros Hb. apply Qle_bool_iff in Hb.
    apply (Qlt_not_le _ _ Hgt). eapply Qle_trans; eassumption. }
  now rewrite Hb.
Qed.

Lemma visible_shrinks_with_threshold_witness :
  incl [ {| Visible.name := "C"; Visible.azimuth := 900;
            Visible.elevation := 400; Visible.distance := 550 |};
         {| Visible.name := "F"; Visible.azimuth := 900;
            Visible.elevation := 400; Visible.distance := 550 |} ]
       [ {| Visible.name := "C"; Visible.azimuth := 900;
            Visible.elevation := 400; Visible.distance := 550 |};
         {| Visible.name := "F"; Visible.azimuth := 900;
            Visible.elevation := 400; Visible.distance := 550 |};
         {| Visible.name := "E"; Visible.azimuth := 2000;
            Visible.elevation := 100; Visible.distance := 2000 |};
         {| Visible.name := "A"; Visible.azimuth := 123;
            Visible.elevation := 50; Visible.distance := 1200 |} ].
Proof.
  apply (visible_shrinks_with_threshold 0 25 demoJs (worldAt 0 0 mixedCatalog)
           _ _ [] []).
  - discriminate.
  - vm_compute. reflexivity.
  - vm_compute. reflexivity.
Defined.

(** ** The sky map: directions, period and bounds *)

Section SkyMapDirections.

Import SkyMap.
Local Open Scope R_scope.

Lemma plot_polar (size azimuth elevation : R) :
  plot size azimuth elevation =
  (center size + radius size * (1 - elevation / 90) * cos ((azimuth - 90) * (PI / 180)),
   center size + radius size * (1 - elevation / 90) * sin ((azimuth - 90) * (PI / 180))).
Proof. reflexivity. Qed.

End SkyMapDirections.

(** X9: the map is turned against the heading: on the page a satellite
    at an azimuth shows where the drawing puts the azimuth less the
    heading, and as far from the centre as in the drawing. *)
Theorem map_turns_against_heading (size heading azimuth elevation : R) :
  onScreen size heading (SkyMap.plot size azimuth elevation) =
  SkyMap.plot size (azimuth - heading) elevation /\
  SkyMap.fromCenter size (onScreen size heading (SkyMap.plot size azimuth elevation)) =
  SkyMap.fromCenter size (SkyMap.plot size azimuth elevation).
Proof.
  assert (Hturn : onScreen size heading (SkyMap.plot size azimuth elevation) =
                  SkyMap.plot size (azimuth - heading) elevation).
  { unfold onScreen, svgRotate. rewrite !plot_polar. cbn [fst snd].
    replace ((azimuth - heading - 90) * (PI / 180))%R
      with ((azimuth - 90) * (PI / 180) + - heading * (PI / 180))%R by ring.
    rewrite cos_plus, sin_plus. f_equal; ring. }
  split; [exact Hturn|].
  rewrite Hturn, !fromCenter_plot. reflexivity.
Qed.

(** X10: a full turn of azimuth draws the same point. *)
Theorem plot_full_turn (size azimuth elevation : R) :
  SkyMap.plot size (azimuth + 360) elevation = SkyMap.plot size azimuth elevation.
Proof.
  rewrite !plot_polar.
  replace ((azimuth + 360 - 90) * (PI / 180))%R
    with ((azimuth - 90) * (PI / 180) + 2 * PI)%R by field.
  rewrite cos_plus, sin_plus, cos_2PI, sin_2PI.
  f_equal; ring.
Qed.

(** X11: a satellite between the horizon and the zenith is drawn inside
    the circle of the map, hence inside the square of the drawing; one
    below the horizon is drawn outside the circle. *)
Theorem plot_inside_the_map (size azimuth elevation : R) :
  (40 < size)%R ->
  ((0 <= elevation <= 90)%R ->
   (SkyMap.fromCenter size (SkyMap.plot size azimuth elevation) <= SkyMap.radius size)%R /\
   (20 <= fst (SkyMap.plot size azimuth elevation) <= size - 20)%R /\
   (20 <= snd (SkyMap.plot size azimuth elevation) <= size - 20)%R) /\
  ((elevation < 0)%R ->
   (SkyMap.radius size < SkyMap.fromCenter size (SkyMap.plot size azimuth elevation))%R).
Proof.
  intros Hsize.
  assert (Hradius : (0 < SkyMap.radius size)%R) by (unfold SkyMap.radius; Lra.lra).
  split.
  - intros [Hlo Hhi].
    set (r := (SkyMap.radius size * (1 - elevation / 90))%R).
    assert (Hr : (0 <= r <= SkyMap.radius size)%R).
    { unfold r. split.
      - apply Rmult_le_pos; Lra.lra.
      - rewrite <- (Rmult_1_r (SkyMap.radius size)) at 2.
        apply Rmult_le_compat_l; Lra.lra. }
    split; [|split].
    + rewrite fromCenter_plot. fold r. rewrite Rabs_right; Lra.lra.
    + rewrite plot_polar. fold r. cbn [fst].
      pose proof (COS_bound ((azimuth - 90) * (PI / 180))) as [Hc1 Hc2].
      unfold SkyMap.center, SkyMap.radius in *. split; Lra.nra.
    + rewrite plot_polar. fold r. cbn [snd].
      pose proof (SIN_bound ((azimuth - 90) * (PI / 180))) as [Hs1 Hs2].
      unfold SkyMap.center, SkyMap.radius in *. split; Lra.nra.
  - intros Hneg. rewrite fromCenter_plot.
    assert (Hr : (SkyMap.radius size < SkyMap.radius size * (1 - elevation / 90))%R).
    { rewrite <- (Rmult_1_r (SkyMap.radius size)) at 1.
      apply Rmult_lt_compat_l; Lra.lra. }
    rewrite Rabs_right; Lra.lra.
Qed.

Lemma plot_inside_the_map_witness :
  (SkyMap.fromCenter SkyMap.size (SkyMap.plot SkyMap.size 123 30) <= SkyMap.radius SkyMap.size)%R.
Proof.
  destruct (plot_inside_the_map SkyMap.size 123 30) as [Hin _].
  - unfold SkyMap.size. Lra.lra.
  - apply Hin. Lra.lra.
Defined.

(** ** The loader: refreshes in a row, trimmed designations, letter case *)

Section RefreshFacts.

Lemma fetch_by_document (net : completion Response) (w : World) :
  DTC.fetchTLEData net w =
  match documentOf net with
  | Some doc => (Normal true, setSatellites (DTC.parse (linesOf doc)) w)
  | None => (Normal false, w)
  end.
Proof.
  destruct net as [[[|] st [doc|e]]|e]; reflexivity.
Qed.

Lemma refreshAll_from (nets : list (completion Response)) :
  forall w (seed : option string),
  satellites w = match seed with
                 | Some doc => DTC.parse (linesOf doc)
                 | None => satellites w
                 end ->
  forall w0,
  (satellites w0 = satellites w \/ seed <> None) ->
  userLocation w = userLocation w0 -> updateInterval w = updateInterval w0 ->
  tleInterval w = tleInterval w0 -> compassHeading w = compassHeading w0 ->
  wallClock w = wallClock w0 ->
  satellites (refreshAll nets w) =
    match lastDelivered nets seed with
    | Some doc => DTC.parse (linesOf doc)
    | None => satellites w0
    end /\
  userLocation (refreshAll nets w) = userLocation w0 /\
  updateInterval (refreshAll nets w) = updateInterval w0 /\
  tleInterval (refreshAll nets w) = tleInterval w0 /\
  compassHeading (refreshAll nets w) = compassHeading w0 /\
  wallClock (refreshAll nets w) = wallClock w0.
Proof.
  induction nets as [|net nets IH]; intros w seed Hseed w0 Hw0 H1 H2 H3 H4 H5.
  - cbn [refreshAll lastDelivered fold_left]. repeat split; auto.
    destruct seed as [doc|]; [exact Hseed|].
    destruct Hw0 as [Hw0|Hw0]; congruence.
  - cbn [refreshAll lastDelivered fold_left].
    rewrite fetch_by_document.
    destruct (documentOf net) as [doc|]; cbn [snd].
    + apply (IH (setSatellites (DTC.parse (linesOf doc)) w) (Some doc));
        auto. right. discriminate.
    + apply (IH w seed); auto.
Qed.

End RefreshFacts.

(** X12: after any series of refreshes the stored catalog is the one
    parsed from the last document that was delivered, whatever was stored
    or fetched before it, and the catalog the series started with when no
    fetch delivered a document; no other variable of the script is
    touched. *)
Theorem refreshes_keep_the_last_delivered
        (nets : list (completion Response)) (w : World) :
  satellites (refreshAll nets w) =
    match lastDelivered nets None with
    | Some doc => DTC.parse (linesOf doc)
    | None => satellites w
    end /\
  userLocation (refreshAll nets w) = userLocation w /\
  updateInterval (refreshAll nets w) = updateInterval w /\
  tleInterval (refreshAll nets w) = tleInterval w /\
  compassHeading (refreshAll nets w) = compassHeading w /\
  wallClock (refreshAll nets w) = wallClock w.
Proof.
  apply (refreshAll_from nets w None); auto.
Qed.

Section TrimFacts.

Import JS.

Lemma trimStart_head (s : string) (c : ascii) (rest : string) :
  trimStart s = String c rest -> isWhiteSpace c = false.
Proof.
  induction s as [|d s IH]; simpl; [discriminate|].
  destruct (isWhiteSpace d) eqn:Hd; [exact IH|].
  intros H. injection H as <- _. exact Hd.
Qed.

Lemma trimEnd_head (c d : ascii) (rest rest' : string) :
  trimEnd (String c rest) = String d rest' -> d = c.
Proof.
  simpl. destruct (trimEnd rest).
  - destruct (isWhiteSpace c); [discriminate|]. now intros H; injection H.
  - now intros H; injection H.
Qed.

Lemma trimEnd_last : forall s front c,
  trimEnd s = (front ++ String c EmptyString)%string -> isWhiteSpace c = false.
Proof.
  induction s as [|a s IH]; intros front c; simpl.
  - destruct front; discriminate.
  - destruct (trimEnd s) as [|b t] eqn:Ht.
    + destruct (isWhiteSpace a) eqn:Ha.
      * destruct front; discriminate.
      * destruct front as [|f front]; simpl.
        -- intros H. injection H as <-. exact Ha.
        -- intros H. injection H as _ H. destruct front; discriminate.
    + destruct front as [|f front]; simpl.
      * discriminate.
      * intros H. injection H as _ H. apply (IH front c). exact H.
Qed.

Lemma trim_trimmed (s : string) : trimmed (trim s).
Proof.
  unfold trimmed, trim. split.
  - intros c rest H.
    destruct (trimStart s) as [|d t] eqn:Hs; [discriminate|].
    apply trimEnd_head in H as ->. exact (trimStart_head s d t Hs).
  - intros front c H. exact (trimEnd_last _ _ _ H).
Qed.

Lemma trimEnd_idempotent : forall s, trimEnd (trimEnd s) = trimEnd s.
Proof.
  induction s as [|a s IH]; [reflexivity|].
  simpl. destruct (trimEnd s) as [|b t] eqn:Ht.
  - destruct (isWhiteSpace a) eqn:Ha; [reflexivity|].
    simpl. now rewrite Ha.
  - change (trimEnd (String a (String b t))) with
      (match trimEnd (String b t) with
       | EmptyString => if isWhiteSpace a then EmptyString else String a EmptyString
       | String b' t' => String a (String b' t')
       end).
    now rewrite IH.
Qed.

Lemma trim_idempotent (s : string) : trim (trim s) = trim s.
Proof.
  unfold trim.
  destruct (trimEnd (trimStart s)) as [|c t] eqn:Ht; [reflexivity|].
  assert (Hc : isWhiteSpace c = false).
  { destruct (trim_trimmed s) as [Hhead _]. unfold trim in Hhead.
    exact (Hhead c t Ht). }
  cbn [trimStart]. rewrite Hc. rewrite <- Ht. apply trimEnd_idempotent.
Qed.

Lemma toLowerCase_app : forall a b,
  toLowerCase (a ++ b) = (toLowerCase a ++ toLowerCase b)%string.
Proof.
  induction a as [|c a IH]; intros b; [reflexivity|].
  simpl. now rewrite IH.
Qed.

Lemma toLowerCase_split : forall a b s,
  toLowerCase s = (a ++ b)%string ->
  exists a' b', s = (a' ++ b')%string /\ toLowerCase a' = a /\ toLowerCase b' = b.
Proof.
  induction a as [|c a IH]; intros b s H.
  - exists EmptyString, s. auto.
  - destruct s as [|d s]; [discriminate|].
    simpl in H. injection H as Hc H.
    destruct (IH b s H) as [a' [b' [-> [Ha Hb]]]].
    exists (String d a'), b'. simpl. rewrite Ha, Hc. auto.
Qed.

End TrimFacts.

(** X13: whatever the lines, every record either loader stores has a
    designation with no white space at its start or at its end, one that
    trimming again leaves as it is. *)
Theorem stored_designations_are_trimmed (lines : list string) (sat : Satellite) :
  In sat (Starlink.parse lines) \/ In sat (DTC.parse lines) ->
  trimmed (name sat) /\ JS.trim (name sat) = name sat.
Proof.
  intros H.
  assert (Hin : In sat (Starlink.parse lines)).
  { destruct H as [H|H]; [exact H|].
    rewrite DTC_parse_filter in H. now apply filter_In in H. }
  rewrite parse_groups in Hin. apply in_map_iff in Hin as [[[l0 l1] l2] [<- _]].
  cbn [recordOf name]. split; [apply trim_trimmed|apply trim_idempotent].
Qed.

Lemma stored_designations_are_trimmed_witness :
  trimmed "STARLINK-11 [DTC]" /\ JS.trim "STARLINK-11 [DTC]" = "STARLINK-11 [DTC]".
Proof.
  apply (stored_designations_are_trimmed
           ["  STARLINK-11 [DTC]   "; "1 a"; "2 a"]
           {| name := "STARLINK-11 [DTC]"; tle1 := "1 a"; tle2 := "2 a" |}).
  right. vm_compute. now left.
Defined.

(** X14: the name filter does not look at letter case: a record is kept
    exactly when its designation contains a stretch of characters that,
    lower-cased, spells "dtc", "direct to cell" or "direct-to-cell". *)
Theorem name_filter_ignores_case (sat : Satellite) :
  keptByFilter sat = true <->
  exists before phrase after,
    name sat = (before ++ phrase ++ after)%string /\
    In (JS.toLowerCase phrase) filterSubstrings.
Proof.
  unfold keptByFilter. rewrite isDTC_spec. split.
  - intros [sub [Hsub [before [after H]]]].
    apply toLowerCase_split in H as [before' [rest [Hname [_ Hrest]]]].
    apply toLowerCase_split in Hrest as [phrase [after' [-> [Hphrase _]]]].
    exists before', phrase, after'. split; [exact Hname|]. now rewrite Hphrase.
  - intros [before [phrase [after [Hname Hin]]]].
    exists (JS.toLowerCase phrase). split; [exact Hin|].
    exists (JS.toLowerCase before), (JS.toLowerCase after).
    now rewrite Hname, !toLowerCase_app.
Qed.

Lemma name_filter_ignores_case_witness :
  keptByFilter {| name := "Starlink Direct-To-Cell 12"; tle1 := "1"; tle2 := "2" |}
  = true.
Proof.
  apply (name_filter_ignores_case
           {| name := "Starlink Direct-To-Cell 12"; tle1 := "1"; tle2 := "2" |}).
  exists "Starlink ", "Direct-To-Cell", " 12". split; [reflexivity|].
  vm_compute. auto.
Defined.

(** ** The page: start-up and the events that follow *)

Section PageFacts.

Variable MIN_ELEVATION : Q.
Variable satelliteJs : Propagator.

Local Abbreviation sample := (samplePage MIN_ELEVATION satelliteJs).
Local Abbreviation handleEvent :=
  (handle MIN_ELEVATION satelliteJs DTC.fetchTLEData).
Local Abbreviation runEvents :=
  (run MIN_ELEVATION satelliteJs DTC.fetchTLEData).

(** Sampling leaves the variables alone; it leaves the page alone, or
    renders the tracker, or throws what [calculatePositions] throws. *)
Lemma samplePage_cases (p : Page) :
  exists r p',
    sample p = (r, p') /\ world p' = world p /\
    ((r = Normal tt /\
      calculatePositions MIN_ELEVATION satelliteJs (world p) = Normal Waiting /\
      p' = p) \/
     (r = Normal tt /\
      exists visible upcoming,
        calculatePositions MIN_ELEVATION satelliteJs (world p)
          = Normal (Rendered visible upcoming) /\
        screen p' = TrackerScreen (renderApp visible upcoming (world p))) \/
     (exists err,
        r = Throw err /\
        calculatePositions MIN_ELEVATION satelliteJs (world p) = Throw err /\
        p' = p)).
Proof.
  unfold samplePage.
  destruct (calculatePositions MIN_ELEVATION satelliteJs (world p))
    as [[|visible upcoming]|err] eqn:H.
  - exists (Normal tt), p. split; [reflexivity|]. split; [reflexivity|].
    left. auto.
  - eexists (Normal tt), _. split; [reflexivity|]. split; [reflexivity|].
    right. left. split; [reflexivity|]. exists visible, upcoming. auto.
  - exists (Throw err), p. split; [reflexivity|]. split; [reflexivity|].
    right. right. exists err. auto.
Qed.

Lemma samplePage_throwsObjects (p : Page) :
  throwsObjects satelliteJs -> fst (sample p) = Normal tt.
Proof.
  intros Hlib. unfold samplePage.
  destruct (calculatePositions_total MIN_ELEVATION satelliteJs (world p) Hlib)
    as [[|visible upcoming] H]; rewrite H; reflexivity.
Qed.

Lemma samplePage_empty_catalog (p : Page) :
  satellites (world p) = [] -> sample p = (Normal tt, p).
Proof.
  intros H. unfold samplePage.
  rewrite calculatePositions_waiting by (now right). reflexivity.
Qed.

Lemma fetchPage_by_document (net : completion Response) (p : Page) :
  fetchPage DTC.fetchTLEData net p =
  match documentOf net with
  | Some doc =>
      (Normal true, setWorld (setSatellites (DTC.parse (linesOf doc)) (world p)) p)
  | None => (Normal false, setWorld (world p) p)
  end.
Proof.
  unfold fetchPage. rewrite fetch_by_document.
  destruct (documentOf net); reflexivity.
Qed.

(** What every handler keeps, also when it throws: the location and the
    timers; and what it can do to the page: nothing, or render the
    tracker. It throws only what the sampler throws. *)
Lemma handle_cases (e : Event) (p : Page) :
  exists r p',
    handleEvent e p = (r, p') /\
    userLocation (world p') = userLocation (world p) /\
    updateInterval (world p') = updateInterval (world p) /\
    tleInterval (world p') = tleInterval (world p) /\
    (screen p' = screen p \/ exists view, screen p' = TrackerScreen view) /\
    (throwsObjects satelliteJs -> r = Normal tt).
Proof.
  assert (Hsample : forall q,
             exists r q',
               sample q = (r, q') /\ world q' = world q /\
               (screen q' = screen q \/ exists view, screen q' = TrackerScreen view) /\
               (throwsObjects satelliteJs -> r = Normal tt)).
  { intros q. destruct (samplePage_cases q) as [r [q' [Hrun [Hw Hs]]]].
    exists r, q'. split; [exact Hrun|]. split; [exact Hw|]. split.
    - destruct Hs as [[_ [_ ->]]|[[_ [v [u [_ Hs]]]]|[err [_ [_ ->]]]]]; eauto.
    - intros Hlib. pose proof (samplePage_throwsObjects q Hlib) as H.
      rewrite Hrun in H. exact H. }
  destruct e as [clock|clock net|clock [alpha|]]; cbn [handle].
  - destruct (Hsample (setWorld (setClock clock (world p)) p))
      as [r [p' [Hrun [Hw [Hs Hr]]]]].
    exists r, p'. rewrite Hrun, Hw. repeat split; auto.
  - rewrite fetchPage_by_document.
    destruct (documentOf net) as [doc|]; eexists (Normal tt), _;
      repeat split; now left.
  - cbn [onDeviceOrientation].
    set (p1 := setWorld _ (setWorld _ p)).
    destruct ((0 <? List.length (satellites (world p1)))%nat &&
              match userLocation (world p1) with Some _ => true | None => false end).
    + destruct (Hsample p1) as [r [p' [Hrun [Hw [Hs Hr]]]]].
      exists r, p'. rewrite Hrun, Hw. repeat split; auto.
    + exists (Normal tt), p1. repeat split. now left.
  - cbn [onDeviceOrientation]. eexists (Normal tt), _. repeat split. now left.
Qed.

Lemma handle_empty_catalog (e : Event) (p : Page) :
  satellites (world p) = [] -> bringsNoRecord e ->
  exists p',
    handleEvent e p = (Normal tt, p') /\
    satellites (world p') = [] /\ screen p' = screen p.
Proof.
  intros Hcat He.
  destruct e as [clock|clock net|clock [alpha|]]; cbn [handle].
  - rewrite samplePage_empty_catalog by exact Hcat. eexists. repeat split. exact Hcat.
  - rewrite fetchPage_by_document. cbn [bringsNoRecord] in He.
    destruct (documentOf net) as [doc|]; eexists; (split; [reflexivity|]);
      cbn; auto.
  - cbn [onDeviceOrientation setWorld setHeading setClock world satellites].
    rewrite Hcat. cbn. eexists. repeat split. exact Hcat.
  - cbn [onDeviceOrientation]. eexists. repeat split. exact Hcat.
Qed.

End PageFacts.

(** X15: what [init] of [app.js] ends in. When the geolocation service is
    missing or refuses, or the fetch does not deliver a document, it ends
    on the error screen without throwing, starts no timer and leaves the
    catalog as it was. Otherwise it stores the location, with altitude 0
    when the service gives none, and the catalog parsed from the document;
    then, unless the library throws [null] or [undefined] for a record of
    that catalog, it does not throw, starts both timers and shows the
    tracker when the catalog has a record and the loading screen when it
    has none. When the library does throw [null] or [undefined] for a
    record, [init] throws, no timer is started and the page stays on the
    loading screen. *)
Theorem init_outcome
        (MIN_ELEVATION : Q) (satelliteJs : Propagator)
        (geo : Geolocation) (net : completion Response) (timers : Z * Z)
        (p : Page) :
  exists r p',
    init MIN_ELEVATION satelliteJs DTC.fetchTLEData geo net timers p = (r, p') /\
    ((geo = Unsupported \/ (exists error, geo = Refused error) \/
      documentOf net = None) ->
     r = Normal tt /\
     (exists message, screen p' = ErrorScreen message) /\
     satellites (world p') = satellites (world p) /\
     updateInterval (world p') = updateInterval (world p) /\
     tleInterval (world p') = tleInterval (world p)) /\
    (forall lat lon alt doc,
       geo = Located lat lon alt -> documentOf net = Some doc ->
       userLocation (world p') = Some (locationOf lat lon alt) /\
       satellites (world p') = DTC.parse (linesOf doc) /\
       (existsb (throwsNullish satelliteJs (locationOf lat lon alt)
                               (wallClock (world p)))
                (DTC.parse (linesOf doc)) = false ->
        r = Normal tt /\
        updateInterval (world p') = Some (fst timers) /\
        tleInterval (world p') = Some (snd timers) /\
        (DTC.parse (linesOf doc) = [] ->
         screen p' = LoadingScreen "Loading satellite data..." "Location acquired") /\
        (DTC.parse (linesOf doc) <> [] ->
         exists view, screen p' = TrackerScreen view /\
                      viewTracking view = List.length (DTC.parse (linesOf doc)))) /\
       (existsb (throwsNullish satelliteJs (locationOf lat lon alt)
                               (wallClock (world p)))
                (DTC.parse (linesOf doc)) = true ->
        r = Throw messageOfNull /\
        updateInterval (world p') = updateInterval (world p) /\
        tleInterval (world p') = tleInterval (world p) /\
        screen p' = LoadingScreen "Loading satellite data..." "Location acquired")).
Proof.
  destruct geo as [|error|lat lon alt].
  - eexists (Normal tt), _. split; [reflexivity|]. split.
    + intros _. cbn. split; [reflexivity|]. split; [eexists; reflexivity|]. auto.
    + intros ? ? ? ? H. discriminate H.
  - eexists (Normal tt), _. split; [reflexivity|]. split.
    + intros _. cbn. split; [reflexivity|]. split; [eexists; reflexivity|]. auto.
    + intros ? ? ? ? H. discriminate H.
  - cbn [init]. rewrite fetchPage_by_document.
    destruct (documentOf net) as [doc|] eqn:Hdoc.
    + set (p1 := setWorld (setSatellites _ _) _).
      assert (Hloc1 : userLocation (world p1) = Some (locationOf lat lon alt))
        by reflexivity.
      assert (Hcat1 : satellites (world p1) = DTC.parse (linesOf doc))
        by reflexivity.
      assert (Hclock1 : wallClock (world p1) = wallClock (world p))
        by reflexivity.
      unfold samplePage.
      destruct (calculatePositions MIN_ELEVATION satelliteJs (world p1))
        as [[|visible upcoming]|err] eqn:Hcalc.
      * eexists (Normal tt), _. split; [reflexivity|]. split.
        { intros [H|[[error H]|H]]; discriminate. }
        intros lat' lon' alt' doc' Hgeo Hdoc'.
        injection Hgeo as <- <- <-. injection Hdoc' as <-.
        split; [reflexivity|]. split; [reflexivity|]. split.
        -- intros _. split; [reflexivity|]. split; [reflexivity|].
           split; [reflexivity|]. split; [reflexivity|].
           intros Hsome. exfalso.
           destruct (existsb (throwsNullish satelliteJs (locationOf lat lon alt)
                                (wallClock (world p1))) (satellites (world p1)))
             eqn:Hnull.
           ++ rewrite (calculatePositions_aborts _ _ _ _ Hloc1 Hnull) in Hcalc.
              discriminate.
           ++ destruct (calculatePositions_rendered MIN_ELEVATION satelliteJs
                          (world p1) _ Hloc1) as [u [Hr _]];
                [rewrite Hcat1; exact Hsome|exact Hnull|].
              rewrite Hr in Hcalc. discriminate.
        -- intros Hnull. exfalso.
           rewrite <- Hclock1, <- Hcat1 in Hnull.
           rewrite (calculatePositions_aborts _ _ _ _ Hloc1 Hnull) in Hcalc.
           discriminate.
      * eexists (Normal tt), _. split; [reflexivity|]. split.
        { intros [H|[[error H]|H]]; discriminate. }
        intros lat' lon' alt' doc' Hgeo Hdoc'.
        injection Hgeo as <- <- <-. injection Hdoc' as <-.
        split; [reflexivity|]. split; [reflexivity|]. split.
        -- intros _. split; [reflexivity|]. split; [reflexivity|].
           split; [reflexivity|]. split.
           ++ intros Hnone. exfalso.
              apply rendered_inv in Hcalc as [observer [_ Hcat]].
              apply Hcat. rewrite Hcat1. exact Hnone.
           ++ intros _. eexists. split; reflexivity.
        -- intros Hnull. exfalso.
           rewrite <- Hclock1, <- Hcat1 in Hnull.
           rewrite (calculatePositions_aborts _ _ _ _ Hloc1 Hnull) in Hcalc.
           discriminate.
      * eexists (Throw err), _. split; [reflexivity|]. split.
        { intros [H|[[error H]|H]]; discriminate. }
        intros lat' lon' alt' doc' Hgeo Hdoc'.
        injection Hgeo as <- <- <-. injection Hdoc' as <-.
        split; [reflexivity|]. split; [reflexivity|].
        destruct (existsb (throwsNullish satelliteJs (locationOf lat lon alt)
                             (wallClock (world p1))) (satellites (world p1)))
          eqn:Hnull.
        -- rewrite (calculatePositions_aborts _ _ _ _ Hloc1 Hnull) in Hcalc.
           injection Hcalc as <-.
           split; [intros Hno; rewrite <- Hclock1, <- Hcat1 in Hno; congruence|].
           intros _. repeat split.
        -- exfalso.
           destruct (satellites (world p1)) as [|sat sats] eqn:Hcat.
           ++ rewrite calculatePositions_waiting in Hcalc by (now right).
              discriminate.
           ++ destruct (calculatePositions_rendered MIN_ELEVATION satelliteJs
                          (world p1) _ Hloc1) as [u [Hr _]];
                [rewrite Hcat; discriminate|rewrite Hcat; exact Hnull|].
              rewrite Hr in Hcalc. discriminate.
    + eexists (Normal tt), _. split; [reflexivity|]. split.
      * intros _. cbn. split; [reflexivity|]. split; [eexists; reflexivity|]. auto.
      * intros ? ? ? ? _ H. discriminate H.
Qed.

Lemma init_outcome_witness :
  exists r p',
    init 25 demoJs DTC.fetchTLEData (Located 0 0 None)
         (Normal {| ok := false; status := 503; text := Normal "busy" |})
         (1, 2)%Z (mkPage (worldAt 0 0 []) Blank) = (r, p') /\
    r = Normal tt /\
    exists message, screen p' = ErrorScreen message.
Proof.
  destruct (init_outcome 25 demoJs (Located 0 0 None)
              (Normal {| ok := false; status := 503; text := Normal "busy" |})
              (1, 2)%Z (mkPage (worldAt 0 0 []) Blank))
    as [r [p' [Hrun [Hfail _]]]].
  exists r, p'. split; [exact Hrun|].
  destruct Hfail as [Hr [Hs _]]; [right; right; reflexivity|].
  split; [exact Hr|exact Hs].
Defined.

(** X16: once the page runs, no handler of [app.js] touches the location
    or the timers or brings up the error screen, whatever the library and
    the network do: after any events, up to the first handler that throws
    if one does, the location and the two timers are as before and the
    page is as before or shows the tracker. With a library that throws
    nothing but values whose properties can be read, never [null] or
    [undefined], no handler throws. *)
Theorem events_keep_the_page_running
        (MIN_ELEVATION : Q) (satelliteJs : Propagator)
        (events : list Event) (p : Page) :
  exists r p',
    run MIN_ELEVATION satelliteJs DTC.fetchTLEData events p = (r, p') /\
    userLocation (world p') = userLocation (world p) /\
    updateInterval (world p') = updateInterval (world p) /\
    tleInterval (world p') = tleInterval (world p) /\
    (screen p' = screen p \/ exists view, screen p' = TrackerScreen view) /\
    (throwsObjects satelliteJs -> r = Normal tt).
Proof.
  revert p. induction events as [|e events IH]; intros p; cbn [run].
  - exists (Normal tt), p. repeat split. now left.
  - destruct (handle_cases MIN_ELEVATION satelliteJs e p)
      as [r1 [p1 [Hrun [H1 [H2 [H3 [Hs Hr]]]]]]].
    rewrite Hrun. destruct r1 as [[]|err].
    + destruct (IH p1) as [r2 [p2 [Hrun2 [H1' [H2' [H3' [Hs' Hr']]]]]]].
      exists r2, p2. split; [exact Hrun2|].
      rewrite H1', H2', H3'. repeat split; auto.
      destruct Hs' as [Hs'|Hs']; [rewrite Hs'; exact Hs|now right].
    + exists (Throw err), p1. repeat split; auto.
Qed.

Lemma events_keep_the_page_running_witness :
  fst (run 25 demoJs DTC.fetchTLEData
           [PositionsTimer 5000; DeviceOrientation 6000 (Some 90);
            CatalogTimer 1800000 (Throw (mkError "Failed to fetch"))]
           (mkPage (worldAt 0 0 mixedCatalog) Blank)) = Normal tt.
Proof.
  destruct (events_keep_the_page_running 25 demoJs
              [PositionsTimer 5000; DeviceOrientation 6000 (Some 90);
               CatalogTimer 1800000 (Throw (mkError "Failed to fetch"))]
              (mkPage (worldAt 0 0 mixedCatalog) Blank))
    as [r [p' [Hrun [_ [_ [_ [_ Hr]]]]]]].
  rewrite Hrun. apply Hr.
  intros observer line1 line2 t. unfold demoJs.
  destruct (String.eqb line1 "overhead"); [discriminate|].
  destruct (String.eqb line1 "rising"); [discriminate|].
  destruct (String.eqb line1 "low"); [discriminate|].
  destruct (String.eqb line1 "decayed"); discriminate.
Defined.

(** X17: with a catalog that has no Direct-to-Cell record the page never
    leaves the loading screen: after a start that locates the user and
    fetches such a document, and after any later timers, orientation
    events and refreshes that bring no such record either, it still reads
    "Loading satellite data...". *)
Theorem empty_catalog_stays_on_loading
        (MIN_ELEVATION : Q) (satelliteJs : Propagator)
        (lat lon : Q) (alt : option Q)
        (net : completion Response) (doc : string) (timers : Z * Z)
        (events : list Event) (p : Page) :
  documentOf net = Some doc ->
  DTC.parse (linesOf doc) = [] ->
  Forall bringsNoRecord events ->
  exists started final,
    init MIN_ELEVATION satelliteJs DTC.fetchTLEData (Located lat lon alt)
         net timers p = (Normal tt, started) /\
    run MIN_ELEVATION satelliteJs DTC.fetchTLEData events started
      = (Normal tt, final) /\
    screen final = LoadingScreen "Loading satellite data..." "Location acquired".
Proof.
  intros Hdoc Hnone Hevents.
  assert (Hrun : forall events p,
             Forall bringsNoRecord events -> satellites (world p) = [] ->
             exists p',
               run MIN_ELEVATION satelliteJs DTC.fetchTLEData events p
                 = (Normal tt, p') /\ screen p' = screen p).
  { clear. induction events as [|e events IH]; intros p Hall Hcat; cbn [run].
    - exists p. auto.
    - inversion Hall as [|? ? He Hrest]; subst.
      destruct (handle_empty_catalog MIN_ELEVATION satelliteJs e p Hcat He)
        as [p1 [Hh [Hcat1 Hs1]]].
      rewrite Hh. destruct (IH p1 Hrest Hcat1) as [p2 [Hr Hs2]].
      exists p2. split; [exact Hr|congruence]. }
  cbn [init]. rewrite fetchPage_by_document, Hdoc, Hnone.
  rewrite samplePage_empty_catalog by reflexivity.
  eexists. 
  match goal with
  | |- exists final, (_, ?q) = (_, _) /\ _ =>
      destruct (Hrun events q Hevents eq_refl) as [final [Hr Hs]]
  end.
  exists final. split; [reflexivity|]. split; [exact Hr|].
  rewrite Hs. reflexivity.
Qed.

Lemma empty_catalog_stays_on_loading_witness :
  exists started final,
    init 25 demoJs DTC.fetchTLEData (Located 0 0 None)
         (Normal {| ok := true; status := 200;
                    text := Normal (unlines ["STARLINK-1008"; "1 a"; "2 a"]) |})
         (1, 2)%Z (mkPage (worldAt 0 0 []) Blank) = (Normal tt, started) /\
    run 25 demoJs DTC.fetchTLEData
        [PositionsTimer 5000; DeviceOrientation 6000 (Some 90);
         CatalogTimer 1800000 (Throw (mkError "Failed to fetch"));
         PositionsTimer 1805000] started = (Normal tt, final) /\
    screen final = LoadingScreen "Loading satellite data..." "Location acquired".
Proof.
  apply (empty_catalog_stays_on_loading 25 demoJs 0 0 None
           (Normal {| ok := true; status := 200;
                      text := Normal (unlines ["STARLINK-1008"; "1 a"; "2 a"]) |})
           (unlines ["STARLINK-1008"; "1 a"; "2 a"])).
  - reflexivity.
  - vm_compute. reflexivity.
  - repeat constructor.
Defined.

(** ** The cards, the message of the empty section and the About box *)

Section CardFacts.

Local Open Scope Q_scope.

Lemma label_defined (azimuth : Q) :
  0 <= azimuth ->
  exists label, getCompassDirection azimuth = Some label /\ In label directions.
Proof.
  intros Hpos. pose proof (round_nonneg azimuth Hpos) as Hr.
  unfold getCompassDirection. rewrite Z.rem_mod_nonneg by lia.
  assert (Hi : (0 <= Num.Math_round (azimuth / (45 # 2)) mod 16 < 16)%Z)
    by (apply Z.mod_pos_bound; lia).
  destruct (directions_defined _ Hi) as [label [Hnth Hin]].
  exists label.
  destruct (Z.ltb_spec (Num.Math_round (azimuth / (45 # 2)) mod 16) 0); [lia|auto].
Qed.

Lemma toFixed1_nonneg (x : Q) : 0 <= x -> 0 <= Num.parseFloat (Num.toFixed1 x).
Proof.
  intros Hx. unfold Num.toFixed1.
  assert (Hb : Qle_bool 0 x = true) by now apply Qle_bool_iff.
  rewrite Hb. unfold Num.parseFloat, Num.Math_round.
  assert (Hn : (0 <= Qfloor (x * 10 + (1 # 2)))%Z).
  { rewrite <- (Qfloor_Z 0). apply Qfloor_resp_le.
    change (inject_Z 0) with 0. Lqa.lra. }
  set (n := Qfloor (x * 10 + (1 # 2))) in *.
  unfold Qle. cbn [Qnum Qden]. lia.
Qed.

Lemma satelliteCards_shape : forall visible index,
  map cardNumber (satelliteCards index visible)
    = seq (index + 1) (List.length visible) /\
  map cardName (satelliteCards index visible) = map Visible.name visible.
Proof.
  induction visible as [|v visible IH]; intros index; [split; reflexivity|].
  cbn [satelliteCards map List.length seq cardNumber cardName].
  destruct (IH (S index)) as [Hn Hname].
  rewrite Hn, Hname. replace (S index + 1)%nat with (S (index + 1)) by lia.
  split; reflexivity.
Qed.

Lemma satelliteCards_labels : forall visible index,
  Forall (fun v => 0 <= Num.parseFloat (Visible.azimuth v)) visible ->
  Forall (fun card => exists label,
              cardDirection card = Some label /\ In label directions)
         (satelliteCards index visible).
Proof.
  induction visible as [|v visible IH]; intros index Hall; [constructor|].
  inversion Hall as [|? ? Hv Hrest]; subst.
  cbn [satelliteCards]. constructor; [|now apply IH].
  cbn [cardDirection]. now apply label_defined.
Qed.

End CardFacts.

(** X18: when the library gives azimuths that are not negative, every
    card of the list of satellites overhead carries one of the 16 compass
    labels; the cards follow the visible list, highest first, and are
    numbered from 1. *)
Theorem cards_carry_a_compass_label
        (MIN_ELEVATION : Q) (satelliteJs : Propagator) (w : World)
        (visible : list Visible.t) (upcoming : list Pass.t) :
  (forall observer line1 line2 t lookAngles,
     satelliteJs observer line1 line2 t = Normal (Some lookAngles) ->
     (0 <= azimuthDeg lookAngles)%Q) ->
  calculatePositions MIN_ELEVATION satelliteJs w = Normal (Rendered visible upcoming) ->
  Forall (fun card => exists label,
              cardDirection card = Some label /\ In label directions)
         (satelliteCards 0 visible) /\
  map cardNumber (satelliteCards 0 visible) = seq 1 (List.length visible) /\
  map cardName (satelliteCards 0 visible) = map Visible.name visible.
Proof.
  intros Hlib H. split; [|apply (satelliteCards_shape visible 0)].
  apply satelliteCards_labels.
  destruct (rendered_visible _ _ _ _ _ H) as [observer [_ [_ ->]]].
  apply (Permutation_Forall (Permutation_sym (sort_perm _ byElevationDesc _))).
  apply Forall_forall. intros v Hv.
  apply in_contributions in Hv as [sat [la [_ [Hc ->]]]].
  apply clears_Some in Hc as [Hjs _]. cbn [entryOf Visible.azimuth].
  apply toFixed1_nonneg. exact (Hlib _ _ _ _ _ Hjs).
Qed.

Lemma cards_carry_a_compass_label_witness :
  map cardDirection
      (satelliteCards 0
         [ {| Visible.name := "A"; Visible.azimuth := 123;
              Visible.elevation := 301; Visible.distance := 1200 |} ])
  = [Some "NNE"].
Proof.
  destruct (cards_carry_a_compass_label 25 demoJs
              (worldAt 600000 0 [demoSat "A" "rising"])
              [ {| Visible.name := "A"; Visible.azimuth := 123;
                   Visible.elevation := 301; Visible.distance := 1200 |} ] [])
    as [_ _].
  - intros observer line1 line2 t la. unfold demoJs.
    destruct (String.eqb line1 "overhead");
      [intros H; injection H as <-; discriminate|].
    destruct (String.eqb line1 "rising");
      [intros H; injection H as <-; discriminate|].
    destruct (String.eqb line1 "low");
      [intros H; injection H as <-; discriminate|].
    destruct (String.eqb line1 "decayed"); discriminate.
  - vm_compute. reflexivity.
  - vm_compute. reflexivity.
Defined.

Section NothingInSight.

Variable MIN_ELEVATION : Q.
Variable satelliteJs : Propagator.

(** What the scan guarantees of the passes [renderApp] receives. *)
Lemma rendered_scan (w : World) (observer : Location)
      (visible : list Visible.t) (upcoming : list Pass.t) :
  calculatePositions MIN_ELEVATION satelliteJs w = Normal (Rendered visible upcoming) ->
  userLocation w = Some observer ->
  Forall (passSound MIN_ELEVATION satelliteJs observer (wallClock w)
                    (firstn 100 (satellites w))) upcoming /\
  (visible = [] -> (List.length upcoming < 5)%nat ->
   forall sat m,
     In sat (firstn 100 (satellites w)) -> scanned m ->
     above MIN_ELEVATION satelliteJs observer sat (instantAt (wallClock w) m) ->
     announced upcoming (name sat)).
Proof.
  intros H Hloc.
  destruct (rendered_upcoming _ _ _ _ _ _ H Hloc)
    as [[Hne ->]|[_ [u [Hu ->]]]].
  - split; [constructor|]. intros Hnil. congruence.
  - destruct (lookAhead_scan MIN_ELEVATION satelliteJs observer (wallClock w)
                (satellites w) lookAheadFuel 1 [])
      as [u' [Hu' [Hsound [_ Hcov]]]];
      try (constructor; fail); try (unfold lookAheadFuel; simpl; lia);
      try reflexivity.
    { intros s m _ [[H1 _] _] Hlt. lia. }
    rewrite Hu in Hu'. injection Hu' as <-. split.
    + now apply (Permutation_Forall (Permutation_sym (sort_perm _ byMinutesUntil u))).
    + intros _ Hlen sat m Hin Hscan Hab.
      rewrite (Permutation_length (sort_perm _ byMinutesUntil u)) in Hlen.
      unfold announced.
      apply (Permutation_in _ (Permutation_map Pass.name
                                 (Permutation_sym (sort_perm _ byMinutesUntil u)))).
      apply (Hcov Hlen sat m Hin Hscan); [|exact Hab].
      destruct Hscan as [[_ H180] _]. lia.
Qed.

End NothingInSight.

(** X19: the page says "Calculating next passes..." exactly when no
    record of the catalog is above the threshold at the clock reading and
    none of the first 100 is above it at any instant of the scan, 1, 3,
    ..., 179 minutes later. *)
Theorem calculating_means_nothing_in_sight
        (MIN_ELEVATION : Q) (satelliteJs : Propagator) (w : World)
        (observer : Location)
        (visible : list Visible.t) (upcoming : list Pass.t) :
  calculatePositions MIN_ELEVATION satelliteJs w = Normal (Rendered visible upcoming) ->
  userLocation w = Some observer ->
  (viewMain (renderApp visible upcoming w) = NoSatellitesOverhead None <->
   (forall sat, In sat (satellites w) ->
                ~ above MIN_ELEVATION satelliteJs observer sat (wallClock w)) /\
   (forall sat m, In sat (firstn 100 (satellites w)) -> scanned m ->
                  ~ above MIN_ELEVATION satelliteJs observer sat
                          (instantAt (wallClock w) m))).
Proof.
  intros H Hloc.
  destruct (rendered_scan _ _ _ _ _ _ H Hloc) as [Hsound Hcov].
  destruct (rendered_visible _ _ _ _ _ H) as [observer' [Hloc' [_ Hvis]]].
  assert (observer' = observer) by congruence. subst observer'.
  assert (Hlisted : forall sat,
             In sat (satellites w) ->
             above MIN_ELEVATION satelliteJs observer sat (wallClock w) ->
             exists v, In v visible).
  { intros sat Hin Hab. unfold above in Hab.
    destruct (clears MIN_ELEVATION satelliteJs observer sat (wallClock w))
      as [la|] eqn:Hc; [|congruence].
    exists (entryOf sat la). rewrite Hvis.
    apply (Permutation_in _ (Permutation_sym (sort_perm _ byElevationDesc _))).
    apply in_contributions. eauto. }
  unfold renderApp. cbn [viewMain]. split.
  - intros Hmain.
    destruct visible as [|v visible]; [|discriminate].
    destruct upcoming as [|pass upcoming]; [|discriminate].
    split.
    + intros sat Hin Hab. destruct (Hlisted sat Hin Hab) as [v []].
    + intros sat m Hin Hscan Hab.
      apply (Hcov eq_refl) in Hab; auto. simpl; lia.
  - intros [Hnow Hlater].
    destruct visible as [|v visible].
    + destruct upcoming as [|pass upcoming]; [reflexivity|].
      exfalso. inversion Hsound as [|? ? [Hscan [Htime [sat [Hin [_ Hab]]]]] _]; subst.
      rewrite Htime in Hab. exact (Hlater sat _ Hin Hscan Hab).
    + exfalso. assert (Hv : In v (v :: visible)) by now left.
      rewrite Hvis in Hv.
      apply (Permutation_in _ (sort_perm _ byElevationDesc _)) in Hv.
      apply in_contributions in Hv as [sat [la [Hin [Hc _]]]].
      apply (Hnow sat Hin). unfold above. congruence.
Qed.

Lemma calculating_means_nothing_in_sight_witness :
  viewMain (renderApp [] [] (worldAt 0 0 [demoSat "D" "decayed"]))
    = NoSatellitesOverhead None <->
  (forall sat, In sat (satellites (worldAt 0 0 [demoSat "D" "decayed"])) ->
               ~ above 25 demoJs origin sat
                       (wallClock (worldAt 0 0 [demoSat "D" "decayed"]))) /\
  (forall sat m,
     In sat (firstn 100 (satellites (worldAt 0 0 [demoSat "D" "decayed"]))) ->
     scanned m ->
     ~ above 25 demoJs origin sat
             (instantAt (wallClock (worldAt 0 0 [demoSat "D" "decayed"])) m)).
Proof.
  apply (calculating_means_nothing_in_sight 25 demoJs
           (worldAt 0 0 [demoSat "D" "decayed"]) origin [] []).
  - vm_compute. reflexivity.
  - reflexivity.
Defined.

Section AboutBoxFacts.

Lemma handleModal_box (box : option bool) (e : ModalEvent) :
  match e, box with
  | CloseClicked, None => True
  | _, _ =>
      handleModal e (documentOfBox box) = Normal (documentOfBox (aboutBox box e))
  end.
Proof.
  destruct e as [| |key]; destruct box as [[|]|];
    try reflexivity; try exact I;
    unfold handleModal, onKeyDown, aboutBox;
    destruct (String.eqb key "Escape"); reflexivity.
Qed.

End AboutBoxFacts.

(** X20: from a document without an About box, and with the cross and the
    backdrop clicked only once the box is there, no click or key throws,
    the document never holds a second box, and the box is shown exactly
    after an About click that no close click or Escape key has followed.
    A close before any About click is the one call that throws. *)
Theorem about_box_is_single_and_safe (events : list ModalEvent) :
  closesOnlyABox None events ->
  runModal events [] = Normal (documentOfBox (fold_left aboutBox events None)) /\
  (List.length (documentOfBox (fold_left aboutBox events None)) <= 1)%nat /\
  (exists err, closeAboutModal [] = Throw err).
Proof.
  intros Hwf.
  assert (Hrun : forall events box,
             closesOnlyABox box events ->
             runModal events (documentOfBox box)
               = Normal (documentOfBox (fold_left aboutBox events box))).
  { clear. induction events as [|e events IH]; intros box Hwf; [reflexivity|].
    cbn [runModal fold_left closesOnlyABox] in *.
    pose proof (handleModal_box box e) as He.
    destruct e as [| |key]; destruct box as [b|];
      try contradiction; rewrite He; now apply IH. }
  split; [exact (Hrun events None Hwf)|]. split.
  - destruct (fold_left aboutBox events None); simpl; lia.
  - eexists. reflexivity.
Qed.

Lemma about_box_is_single_and_safe_witness :
  runModal [KeyDown "Escape"; AboutClicked; AboutClicked; KeyDown "Escape";
            CloseClicked; AboutClicked] [] = Normal [true].
Proof.
  destruct (about_box_is_single_and_safe
              [KeyDown "Escape"; AboutClicked; AboutClicked; KeyDown "Escape";
               CloseClicked; AboutClicked]) as [Hrun _].
  - simpl. exact I.
  - exact Hrun.
Defined.

(** ** The order of the passes and the place of the listed satellites *)

Section ScanOrder.

Variable MIN_ELEVATION : Q.
Variable satelliteJs : Propagator.
Variable observer : Location.

Lemma minutesAscending_push (upcoming : list Pass.t) (p : Pass.t) :
  minutesAscending upcoming ->
  Forall (fun q => (Pass.minutesUntil q <= Pass.minutesUntil p)%Z) upcoming ->
  minutesAscending (upcoming ++ [p]).
Proof.
  unfold minutesAscending. induction upcoming as [|q upcoming IH]; intros Hs Hall.
  - constructor; constructor.
  - inversion Hs as [|? ? Hs' Hq]; subst. inversion Hall as [|? ? Hqp Hall']; subst.
    cbn [app]. constructor; [now apply IH|].
    apply Forall_app. split; [exact Hq|]. constructor; [exact Hqp|constructor].
Qed.

Lemma forOf_order (t minutes : Z) : forall sats upcoming upcoming',
  minutesAscending upcoming ->
  Forall (fun q => (Pass.minutesUntil q <= minutes)%Z) upcoming ->
  forOf MIN_ELEVATION satelliteJs observer t minutes sats upcoming = Normal upcoming' ->
  minutesAscending upcoming' /\
  Forall (fun q => (Pass.minutesUntil q <= minutes)%Z) upcoming'.
Proof.
  induction sats as [|sat sats IH]; intros upcoming upcoming' Hs Hall Hrun.
  - cbn [forOf] in Hrun. injection Hrun as <-. auto.
  - cbn [forOf] in Hrun. rewrite checkLater_cases in Hrun. cbn [bind] in Hrun.
    destruct (clears MIN_ELEVATION satelliteJs observer sat t);
      [|exact (IH _ _ Hs Hall Hrun)].
    destruct (found upcoming sat); [exact (IH _ _ Hs Hall Hrun)|].
    cbn [fst snd] in Hrun.
    assert (Hs' : minutesAscending (upcoming ++ [passOf sat t minutes]))
      by (apply minutesAscending_push; [exact Hs|exact Hall]).
    assert (Hall' : Forall (fun q => (Pass.minutesUntil q <= minutes)%Z)
                           (upcoming ++ [passOf sat t minutes])).
    { apply Forall_app. split; [exact Hall|]. constructor; [|constructor].
      cbn. lia. }
    destruct (5 <=? List.length (upcoming ++ [passOf sat t minutes]))%nat.
    + injection Hrun as <-. auto.
    + exact (IH _ _ Hs' Hall' Hrun).
Qed.

Lemma lookAhead_order (now : Z) (sats : list Satellite) :
  forall fuel minutes upcoming upcoming',
  minutesAscending upcoming ->
  Forall (fun q => (Pass.minutesUntil q <= minutes)%Z) upcoming ->
  lookAhead MIN_ELEVATION satelliteJs fuel observer now sats minutes upcoming
    = Normal upcoming' ->
  minutesAscending upcoming'.
Proof.
  induction fuel as [|fuel IH]; intros minutes upcoming upcoming' Hs Hall Hrun;
    cbn [lookAhead] in Hrun.
  - now injection Hrun as <-.
  - destruct (minutes <=? 180)%Z; [|now injection Hrun as <-].
    destruct (forOf _ _ _ _ _ _ _) as [u|e] eqn:Hu; [|discriminate].
    cbn [bind] in Hrun.
    destruct (forOf_order _ _ _ _ _ Hs Hall Hu) as [Hs' Hall'].
    destruct (5 <=? List.length u)%nat; [now injection Hrun as <-|].
    apply (IH (minutes + 2)%Z u upcoming' Hs'); [|exact Hrun].
    eapply Forall_impl; [|exact Hall']. intros q Hq. cbn beta in *. lia.
Qed.

End ScanOrder.

Section SortedAlready.

Variable A : Type.
Variable compareFn : A -> A -> Q.

(** Sorting an array the comparator already finds in order moves
    nothing. *)
Lemma sort_in_order (l : list A) :
  StronglySorted (fun a b => Num.gt (compareFn a b) 0 = false) l ->
  sort compareFn l = l.
Proof.
  induction l as [|x l IH]; intros Hs; [reflexivity|].
  inversion Hs as [|? ? Hs' Hx]; subst.
  cbn [sort fold_right]. fold (sort compareFn l). rewrite (IH Hs').
  destruct l as [|y l]; [reflexivity|].
  inversion Hx as [|? ? Hxy _]; subst. cbn [insertSorted]. now rewrite Hxy.
Qed.

End SortedAlready.

(** X21: the scan finds the passes in ascending order of minutes-until,
    so [upcoming.sort] moves nothing: the passes reach [renderApp] in the
    order the scan pushed them, by instant and, within an instant, by
    place in the catalog. *)
Theorem upcoming_sort_moves_nothing
        (MIN_ELEVATION : Q) (satelliteJs : Propagator) (w : World)
        (observer : Location) (upcoming : list Pass.t) :
  calculatePositions MIN_ELEVATION satelliteJs w = Normal (Rendered [] upcoming) ->
  userLocation w = Some observer ->
  lookAhead MIN_ELEVATION satelliteJs lookAheadFuel observer (wallClock w)
            (satellites w) 1 [] = Normal upcoming /\
  sort byMinutesUntil upcoming = upcoming.
Proof.
  intros H Hloc.
  destruct (rendered_upcoming _ _ _ _ _ _ H Hloc)
    as [[Hne _]|[_ [u [Hu ->]]]]; [congruence|].
  assert (Hs : minutesAscending u).
  { apply (lookAhead_order MIN_ELEVATION satelliteJs observer (wallClock w)
             (satellites w) lookAheadFuel 1 [] u); [constructor|constructor|exact Hu]. }
  assert (Hid : sort byMinutesUntil u = u).
  { apply sort_in_order. unfold minutesAscending in Hs.
    eapply StronglySorted_ind with (P := fun l =>
      StronglySorted (fun a b => Num.gt (byMinutesUntil a b) 0 = false) l);
      [constructor| |exact Hs].
    intros a l _ Hl Ha. constructor; [exact Hl|].
    eapply Forall_impl; [|exact Ha]. intros b Hab.
    now apply gt_zero_false, byMinutesUntil_le. }
  rewrite !Hid. split; [exact Hu|reflexivity].
Qed.

Lemma upcoming_sort_moves_nothing_witness :
  sort byMinutesUntil risingPasses = risingPasses.
Proof.
  destruct (upcoming_sort_moves_nothing 25 demoJs (worldAt 0 0 risingCatalog)
              origin risingPasses) as [_ Hid].
  - vm_compute. reflexivity.
  - reflexivity.
  - exact Hid.
Defined.

Section DrawnInside.

Local Open Scope Q_scope.

Lemma toFixed1_at_most (x : Q) (m : Z) :
  0 <= x -> x <= inject_Z m -> (Num.toFixed1 x <= 10 * m)%Z.
Proof.
  intros Hx Hm. unfold Num.toFixed1.
  assert (Hb : Qle_bool 0 x = true) by now apply Qle_bool_iff.
  rewrite Hb. unfold Num.Math_round.
  assert (Hhalf : Qfloor (inject_Z (10 * m) + (1 # 2)) = (10 * m)%Z).
  { apply Qfloor_between.
    - Lqa.lra.
    - rewrite inject_Z_plus. change (inject_Z 1) with 1. Lqa.lra. }
  rewrite <- Hhalf. apply Qfloor_resp_le.
  rewrite inject_Z_mult. change (inject_Z 10) with 10. Lqa.lra.
Qed.

Lemma toFixed1_at_least_zero (x : Q) : 0 <= x -> (0 <= Num.toFixed1 x)%Z.
Proof.
  intros Hx. unfold Num.toFixed1.
  assert (Hb : Qle_bool 0 x = true) by now apply Qle_bool_iff.
  rewrite Hb. unfold Num.Math_round.
  rewrite <- (Qfloor_Z 0). apply Qfloor_resp_le.
  change (inject_Z 0) with 0. Lqa.lra.
Qed.

End DrawnInside.

(** X22: with a threshold that is not negative and a library whose
    elevations are 90 degrees at most, every satellite listed is drawn
    inside the circle of the sky map. *)
Theorem visible_drawn_inside_the_map
        (MIN_ELEVATION : Q) (satelliteJs : Propagator) (w : World)
        (visible : list Visible.t) (upcoming : list Pass.t) :
  (0 <= MIN_ELEVATION)%Q ->
  (forall observer line1 line2 t lookAngles,
     satelliteJs observer line1 line2 t = Normal (Some lookAngles) ->
     (elevationDeg lookAngles <= 90)%Q) ->
  calculatePositions MIN_ELEVATION satelliteJs w = Normal (Rendered visible upcoming) ->
  Forall (fun point =>
            (SkyMap.fromCenter SkyMap.size point <= SkyMap.radius SkyMap.size)%R)
         (SkyMap.renderSkyMap visible).
Proof.
  intros HMIN Hlib H.
  destruct (rendered_visible _ _ _ _ _ H) as [observer [_ [_ ->]]].
  unfold SkyMap.renderSkyMap. apply Forall_map.
  apply (Permutation_Forall (Permutation_sym (sort_perm _ byElevationDesc _))).
  apply Forall_forall. intros v Hv.
  apply in_contributions in Hv as [sat [la [_ [Hc ->]]]].
  apply clears_Some in Hc as [Hjs Hgt]. cbn [entryOf Visible.azimuth Visible.elevation].
  assert (Hpos : (0 <= elevationDeg la)%Q) by Lqa.lra.
  pose proof (toFixed1_at_least_zero _ Hpos) as Hlo.
  pose proof (toFixed1_at_most _ 90 Hpos (Hlib _ _ _ _ _ Hjs)) as Hhi.
  rewrite fromCenter_plot.
  set (n := Num.toFixed1 (elevationDeg la)) in *.
  assert (Hn : (0 <= SkyMap.parseFloat n <= 90)%R).
  { unfold SkyMap.parseFloat. apply IZR_le in Hlo, Hhi.
    change (10 * 90)%Z with 900%Z in Hhi. split; Lra.lra. }
  assert (Hradius : (0 <= SkyMap.radius SkyMap.size)%R)
    by (unfold SkyMap.radius, SkyMap.size; Lra.lra).
  rewrite Rabs_right.
  - rewrite <- (Rmult_1_r (SkyMap.radius SkyMap.size)) at 2.
    apply Rmult_le_compat_l; Lra.lra.
  - apply Rle_ge, Rmult_le_pos; Lra.lra.
Qed.

Lemma visible_drawn_inside_the_map_witness :
  Forall (fun point =>
            (SkyMap.fromCenter SkyMap.size point <= SkyMap.radius SkyMap.size)%R)
         (SkyMap.renderSkyMap
            [ {| Visible.name := "A"; Visible.azimuth := 123;
                 Visible.elevation := 301; Visible.distance := 1200 |} ]).
Proof.
  apply (visible_drawn_inside_the_map 25 demoJs
           (worldAt 600000 0 [demoSat "A" "rising"]) _ []).
  - discriminate.
  - intros observer line1 line2 t la. unfold demoJs.
    destruct (String.eqb line1 "overhead");
      [intros H; injection H as <-; discriminate|].
    destruct (String.eqb line1 "rising").
    { intros H. injection H as <-. cbn [elevationDeg].
      destruct (600000 <=? t)%Z; discriminate. }
    destruct (String.eqb line1 "low");
      [intros H; injection H as <-; discriminate|].
    destruct (String.eqb line1 "decayed"); discriminate.
  - vm_compute. reflexivity.
Defined.

(** ** When the sampler throws *)

(** X23: the sampler throws in one case only: the observer is known and,
    at the clock reading, the propagation of some record of the catalog
    throws [null] or [undefined], which the handler of the first loop
    cannot log. An [Error] thrown by the library, a position that is not
    valid and anything thrown during the scan of the next passes are
    skipped: with a library that never throws [null] or [undefined] the
    sampler returns whatever else the library does. *)
Theorem sampler_throws_only_on_null
        (MIN_ELEVATION : Q) (satelliteJs : Propagator) (w : World) :
  ((exists err, calculatePositions MIN_ELEVATION satelliteJs w = Throw err) <->
   (exists observer,
      userLocation w = Some observer /\
      existsb (throwsNullish satelliteJs observer (wallClock w)) (satellites w)
        = true)) /\
  (throwsObjects satelliteJs ->
   exists sample, calculatePositions MIN_ELEVATION satelliteJs w = Normal sample).
Proof.
  split; [|apply calculatePositions_total]. split.
  - intros [err Herr].
    destruct (userLocation w) as [observer|] eqn:Hloc.
    + exists observer. split; [reflexivity|].
      destruct (existsb _ (satellites w)) eqn:Hnull; [reflexivity|].
      exfalso. destruct (satellites w) as [|sat sats] eqn:Hcat.
      * rewrite calculatePositions_waiting in Herr by (now right). discriminate.
      * destruct (calculatePositions_rendered MIN_ELEVATION satelliteJs w observer Hloc)
          as [u [Hr _]]; [rewrite Hcat; discriminate|rewrite Hcat; exact Hnull|].
        rewrite Hr in Herr. discriminate.
    + rewrite calculatePositions_waiting in Herr by (now left). discriminate.
  - intros [observer [Hloc Hnull]]. exists messageOfNull.
    now apply calculatePositions_aborts with observer.
Qed.

Lemma sampler_throws_only_on_null_witness :
  exists sample,
    calculatePositions 25 demoJs (worldAt 0 0 mixedCatalog) = Normal sample.
Proof.
  destruct (sampler_throws_only_on_null 25 demoJs (worldAt 0 0 mixedCatalog))
    as [_ Htotal].
  apply Htotal.
  intros observer line1 line2 t. unfold demoJs.
  destruct (String.eqb line1 "overhead"); [discriminate|].
  destruct (String.eqb line1 "rising"); [discriminate|].
  destruct (String.eqb line1 "low"); [discriminate|].
  destruct (String.eqb line1 "decayed"); discriminate.
Defined.
